(** * lavaplayer: session registry, command API and protocol handler

    A shallow embedding of [lavaplayer/client.py] (class [LavalinkClient])
    and [lavaplayer/websocket.py] (class [WS]).

    - The registry [self._nodes] is a finite map from guild id to [Node].
    - A coroutine is a function from the client state to an outcome (a
      returned value or a raised exception) and the state it leaves behind;
      a raise keeps every mutation made before it, as in Python.
    - The socket is the list of JSON frames handed to [ws.send_json], the
      emitter the list of [(name, event)] pairs handed to [emit].
    - [Track] objects are shared by reference between the caller and the
      queues.  The one attribute the client ever assigns, [requester], is
      therefore kept in a store indexed by object identity; the other
      attributes are never written and travel with the reference.
    - The client is taken as constructed and connected: [self.ws] is an
      open socket and the emitter is the one [WS] emits to. *)

From Stdlib Require Import ZArith DecimalString.
From Stdlib Require DecimalPos DecimalZ.
From stdpp Require Import base option list gmap strings.

Local Open Scope string_scope.
Local Open Scope list_scope.
Local Open Scope Z_scope.

(** ** Python helpers *)

(** [str(n)] for an [int]. *)
Definition str (n : Z) : string := NilZero.string_of_int (Z.to_int n).

(** [s.replace(old, new)] for a non-empty [old]: leftmost, non-overlapping
    occurrences.  [skip] counts the characters of a matched occurrence that
    are still to be dropped. *)
Fixpoint replace_from (old new : string) (skip : nat) (s : string) : string :=
  match s with
  | EmptyString => EmptyString
  | String c s' =>
      match skip with
      | S k => replace_from old new k s'
      | O =>
          if String.prefix old s
          then String.append new (replace_from old new (Nat.pred (String.length old)) s')
          else String c (replace_from old new O s')
      end
  end.

Definition replace (s old new : string) : string := replace_from old new O s.

(** JSON values, as passed to [send_json]; a [dict] literal is the list of
    its items in insertion order. *)
#[warnings="-register-all"]
Inductive JSON : Type :=
| JNull
| JBool (b : bool)
| JInt (n : Z)
| JStr (s : string)
| JObj (items : list (string * JSON)).

Definition dict : Type := list (string * JSON).

(** [d[k]] / [d.get(k)]. *)
Fixpoint dict_get (k : string) (d : dict) : option JSON :=
  match d with
  | [] => None
  | (k', v) :: d' => if String.eqb k k' then Some v else dict_get k d'
  end.

(** [d[k] = v]: overwrite in place, or add at the end. *)
Fixpoint dict_set (k : string) (v : JSON) (d : dict) : dict :=
  match d with
  | [] => [(k, v)]
  | (k', v') :: d' =>
      if String.eqb k k' then (k', v) :: d' else (k', v') :: dict_set k v d'
  end.

(** ** objects.py *)

Module objects.

(** Modelled from the spec: the [Track] class (objects.py), with the
    attributes of the spec's data model under the names [_prossing_tracks]
    passes to the constructor.  A value of this type is a reference: the
    identity of the object ([oid]) and its read-only attributes; the
    [requester] attribute lives in the client's store. *)
Record Track : Type := mkTrack {
  oid : nat;
  track : string;
  identifier : string;
  isSeekable : bool;
  author : string;
  length : Z;
  isStream : bool;
  position : Z;
  sourceName : option string;
  title : option string;
  uri : string
}.

(** Modelled from the spec: the [Node] class (objects.py), the session
    record of the spec's data model: queue, volume, repeat flag and
    connectivity flag, built as [Node(guild_id, queue, volume,
    is_connected=...)] by [create_new_node]. *)
Record Node : Type := mkNode {
  guild_id : Z;
  queue : list Track;
  volume : Z;
  repeat : bool;
  is_connected : bool
}.

(** Modelled from the spec: the [Info] class (objects.py), the node health
    snapshot, with the keywords [WS.callback] passes. *)
Record Info : Type := mkInfo {
  playingPlayers : Z;
  memory_used : Z;
  memory_free : Z;
  players : Z;
  uptime : Z
}.

(** Modelled from the spec: the [Filters] class (objects.py), of which
    the client reads the caller-supplied [_payload] only. *)
Record Filters : Type := mkFilters { _payload : dict }.

(** Modelled from the spec: the event classes (objects.py), one case per
    inbound notification, with the arguments [WS.callback] passes. *)
Inductive Event : Type :=
| PlayerUpdate (guild_id : string) (time : Z) (position : option Z) (connected : bool)
| TrackStartEvent (track : Track) (guild_id : Z)
| TrackEndEvent (track : Track) (guild_id : Z) (reason : string)
| TrackExceptionEvent (track : Track) (guild_id : Z)
    (exception message severity cause : string)
| TrackStuckEvent (track : Track) (guild_id : Z) (thresholdMs : Z)
| WebSocketClosedEvent (track : Track) (guild_id : Z)
    (code : Z) (reason : string) (byRemote : bool).

End objects.

Import objects.

#[global] Instance Track_eq_dec : EqDecision Track.
Proof. solve_decision. Defined.

#[global] Instance Node_eq_dec : EqDecision Node.
Proof. solve_decision. Defined.

(** ** exceptions

    Modelled from the spec: [NodeError] and [VolumeError]
    (lavaplayer/exceptions.py), the "session not found" and
    "volume out of range" kinds, with the arguments the client passes.
    [AttributeError] and [KeyError] are Python's own. *)

Inductive Exn : Type :=
| NodeError (message : string) (guild_id : Z)
| VolumeError (message : string) (guild_id : Z)
| AttributeError
| KeyError (key : Z).

(** ** Client state and coroutines *)

Record Client : Type := mkClient {
  _nodes : gmap Z Node;
  requesters : gmap nat (option Z);
  next_oid : nat;
  info : option Info;
  wire : list dict;
  emitted : list (string * Event)
}.

Inductive Outcome (A : Type) : Type :=
| Returned (a : A)
| Raised (e : Exn).
Arguments Returned {A} a.
Arguments Raised {A} e.

Definition Coro (A : Type) : Type := Client -> Outcome A * Client.

Definition ret {A} (a : A) : Coro A := fun s => (Returned a, s).
Definition raise {A} (e : Exn) : Coro A := fun s => (Raised e, s).
Definition bind {A B} (m : Coro A) (k : A -> Coro B) : Coro B :=
  fun s =>
    match m s with
    | (Returned a, s') => k a s'
    | (Raised e, s') => (Raised e, s')
    end.

#[global] Instance Coro_ret : MRet Coro := @ret.
#[global] Instance Coro_bind : MBind Coro := fun A B k m => bind m k.

(** [try: m  except NodeError: h]. *)
Definition try_except_NodeError {A} (m : Coro A) (h : Coro A) : Coro A :=
  fun s =>
    match m s with
    | (Raised (NodeError _ _), s') => h s'
    | r => r
    end.

Definition modify (f : Client -> Client) : Coro unit := fun s => (Returned tt, f s).

Definition with_nodes (f : gmap Z Node -> gmap Z Node) (s : Client) : Client :=
  mkClient (f (_nodes s)) (requesters s) (next_oid s) (info s) (wire s) (emitted s).

Definition with_requesters (f : gmap nat (option Z) -> gmap nat (option Z))
    (s : Client) : Client :=
  mkClient (_nodes s) (f (requesters s)) (next_oid s) (info s) (wire s) (emitted s).

(** [track.requester]; an object whose attribute was never assigned has the
    constructor's default, [None]. *)
Definition requester_of (s : Client) (t : Track) : option Z :=
  default None (requesters s !! oid t).

Definition get_requester (t : Track) : Coro (option Z) :=
  fun s => (Returned (requester_of s t), s).

(** [track.requester = requester]. *)
Definition set_requester (t : Track) (requester : option Z) : Coro unit :=
  modify (with_requesters (insert (oid t) requester)).

(** ** websocket.py: [WS.send] *)

(** [await self.ws.send_json(pyload)]: the frame goes out on the socket. *)
Definition send (pyload : dict) : Coro unit :=
  fun s =>
    (Returned tt,
     mkClient (_nodes s) (requesters s) (next_oid s) (info s)
       (wire s ++ [pyload]) (emitted s)).

(** Modelled from the spec: [Emitter.emit] (emitter.py), the publish
    operation of the event dispatcher, kept as the record of what was
    published: [self.emitter.emit(name, data)]. *)
Definition emit (name : string) (data : Event) : Coro unit :=
  fun s =>
    (Returned tt,
     mkClient (_nodes s) (requesters s) (next_oid s) (info s)
       (wire s) (emitted s ++ [(name, data)])).

(** ** [random.sample]

    [random.sample(population, k)] as the standard library runs it for
    [k = len(population)]: a pool copy of the population, and for each
    [i] one draw [j = randbelow(n - i)], [result[i] = pool[j]],
    [pool[j] = pool[n - i - 1]].  [rng i] is the generator's [i]-th raw
    output, reduced into the range [randbelow] promises. *)
Definition randbelow (rng : nat -> nat) (i bound : nat) : nat :=
  (rng i mod bound)%nat.

Fixpoint sample_loop {A} (rng : nat -> nat) (n : nat) (pool : list A)
    (i k : nat) : list A :=
  match k with
  | O => []
  | S k' =>
      let j := randbelow rng i (n - i) in
      match pool !! j, pool !! (n - i - 1)%nat with
      | Some x, Some y => x :: sample_loop rng n (<[j := y]> pool) (S i) k'
      | _, _ => []
      end
  end.

Definition sample {A} (rng : nat -> nat) (population : list A) (k : nat) : list A :=
  sample_loop rng (List.length population) population O k.

(** [l.remove(x)]: drop the first item equal to [x]. *)
Fixpoint list_remove {A} `{EqDecision A} (x : A) (l : list A) : list A :=
  match l with
  | [] => []
  | y :: l' => if decide (x = y) then l' else y :: list_remove x l'
  end.

(** ** client.py: [LavalinkClient] *)

Section LavalinkClient.

(** Modelled from the spec: [Api.request("GET", "/decodetrack", ...)]
    (api.py), the metadata-lookup collaborator: the track info it answers
    for a handle.  Of the value only the attributes other than [oid] and
    [track] are used. *)
Variable api_decodetrack : string -> Track.

(** The value the [Node] constructor gives [repeat] when the caller passes
    none (its declaration is in objects.py). *)
Variable Node_repeat_default : bool.

(** [Track(track, **result)]: a new object, with the next free identity. *)
Definition new_Track (id : nat) (handle : string) (result : Track) : Track :=
  mkTrack id handle (identifier result) (isSeekable result) (author result)
    (objects.length result) (isStream result) (position result)
    (sourceName result) (title result) (uri result).

Definition _decodetrack (handle : string) : Coro Track :=
  fun s =>
    (Returned (new_Track (next_oid s) handle (api_decodetrack handle)),
     mkClient (_nodes s) (requesters s) (S (next_oid s)) (info s)
       (wire s) (emitted s)).

Definition get_guild_node (guild_id : Z) : Coro (option Node) :=
  fun s => (Returned (_nodes s !! guild_id), s).

(** [self._nodes.pop(node.guild_id)]. *)
Definition remove_guild_node (guild_id : Z) : Coro unit :=
  node ← get_guild_node guild_id;
  match node with
  | None => raise AttributeError
  | Some node =>
      nodes ← (fun s => (Returned (_nodes s), s));
      match nodes !! objects.guild_id node with
      | None => raise (KeyError (objects.guild_id node))
      | Some _ => modify (with_nodes (delete (objects.guild_id node)))
      end
  end.

Definition set_guild_node (guild_id : Z) (node : Node) : Coro unit :=
  _ ← get_guild_node guild_id;
  modify (with_nodes (insert guild_id node)).

Definition create_new_node (guild_id : Z) (is_connected : bool) : Coro Node :=
  let node := mkNode guild_id [] 100 Node_repeat_default is_connected in
  _ ← modify (with_nodes (insert guild_id node));
  mret node.

Definition queue (guild_id : Z) : Coro (list Track) :=
  node ← get_guild_node guild_id;
  match node with
  | None => raise AttributeError
  | Some node => mret (objects.queue node)
  end.

Definition repeat (guild_id : Z) (stats : bool) : Coro unit :=
  node ← get_guild_node guild_id;
  match node with
  | None => raise AttributeError
  | Some node =>
      let node := mkNode (objects.guild_id node) (objects.queue node)
                    (objects.volume node) stats (is_connected node) in
      set_guild_node guild_id node
  end.

Definition play (guild_id : Z) (track : Track) (requester : option Z)
    (start : bool) : Coro unit :=
  node ← get_guild_node guild_id;
  match node with
  | None => raise (NodeError "Node not found" guild_id)
  | Some node =>
      let payload := [("op", JStr "play");
                      ("guildId", JStr (str guild_id));
                      ("track", JStr (objects.track track));
                      ("startTime", JStr "0");
                      ("noReplace", JBool false)] in
      if start then send payload
      else
        _ ← set_requester track requester;
        let node := mkNode (objects.guild_id node) (objects.queue node ++ [track])
                      (objects.volume node) (objects.repeat node)
                      (is_connected node) in
        _ ← set_guild_node guild_id node;
        if negb (List.length (objects.queue node) =? 1)%nat then mret tt
        else send payload
  end.

(** The caller's [filters._payload] gets the guild id and is sent. *)
Definition filters (guild_id : Z) (filters : Filters) : Coro unit :=
  node ← get_guild_node guild_id;
  match node with
  | None => raise (NodeError "Node not found" guild_id)
  | Some node =>
      send (dict_set "guildId" (JStr (str guild_id)) (_payload filters))
  end.

Definition stop (guild_id : Z) : Coro Node :=
  node ← get_guild_node guild_id;
  match node with
  | None => raise AttributeError
  | Some node =>
      if (List.length (objects.queue node) =? 0)%nat
      then raise (NodeError "Node not found" guild_id)
      else
        let node := mkNode (objects.guild_id node) []
                      (objects.volume node) (objects.repeat node)
                      (is_connected node) in
        _ ← set_guild_node guild_id node;
        _ ← send [("op", JStr "stop"); ("guildId", JStr (str guild_id))];
        mret node
  end.

Definition skip (guild_id : Z) : Coro (option Node) :=
  node ← get_guild_node guild_id;
  match node with
  | None => raise (NodeError "Node not found" guild_id)
  | Some node =>
      if (List.length (objects.queue node) =? 0)%nat then mret None
      else
        _ ← send [("op", JStr "stop"); ("guildId", JStr (str guild_id))];
        mret (Some node)
  end.

Definition pause (guild_id : Z) (stats : bool) : Coro unit :=
  node ← get_guild_node guild_id;
  match node with
  | None => raise (NodeError "Node not found" guild_id)
  | Some node =>
      send [("op", JStr "pause"); ("guildId", JStr (str guild_id));
            ("pause", JBool stats)]
  end.

Definition seek (guild_id : Z) (position : Z) : Coro unit :=
  node ← get_guild_node guild_id;
  match node with
  | None => raise (NodeError "Node not found" guild_id)
  | Some node =>
      send [("op", JStr "seek"); ("guildId", JStr (str guild_id));
            ("position", JInt position)]
  end.

Definition volume (guild_id : Z) (volume : Z) : Coro unit :=
  if (volume <? 0) || (volume >? 1000)
  then raise (VolumeError "Volume may range from 0 to 1000. 100 is default" guild_id)
  else
    node ← get_guild_node guild_id;
    match node with
    | None => raise (NodeError "Node not found" guild_id)
    | Some node =>
        let node := mkNode (objects.guild_id node) (objects.queue node)
                      volume (objects.repeat node) (is_connected node) in
        _ ← set_guild_node guild_id node;
        send [("op", JStr "volume"); ("guildId", JStr (str guild_id));
              ("volume", JInt volume)]
    end.

Definition destroy (guild_id : Z) : Coro unit :=
  node ← get_guild_node guild_id;
  match node with
  | None => raise (NodeError "Node not found" guild_id)
  | Some node =>
      _ ← remove_guild_node guild_id;
      send [("op", JStr "destroy"); ("guildId", JStr (str guild_id))]
  end.

(** What [shuffle] hands back: the literal [[]] or the node. *)
Inductive Shuffled : Type :=
| EmptyList
| TheNode (node : Node).

Definition shuffle (rng : nat -> nat) (guild_id : Z) : Coro Shuffled :=
  node ← get_guild_node guild_id;
  match node with
  | None => raise (NodeError "Node not found" guild_id)
  | Some node =>
      match objects.queue node with
      | [] => mret EmptyList
      | np :: _ =>
          let q := list_remove np (objects.queue node) in
          let q := sample rng q (List.length q) in
          let q := np :: q in
          let node := mkNode (objects.guild_id node) q
                        (objects.volume node) (objects.repeat node)
                        (is_connected node) in
          _ ← set_guild_node guild_id node;
          mret (TheNode node)
      end
  end.

(** [not channel_id] for an [Optional[int]]. *)
Definition falsy_id (channel_id : option Z) : bool :=
  match channel_id with
  | None => true
  | Some c => c =? 0
  end.

Definition voice_update (guild_id : Z) (session_id token endpoint : string)
    (channel_id : option Z) : Coro unit :=
  if falsy_id channel_id then destroy guild_id
  else
    _ ← send [("op", JStr "voiceUpdate");
              ("guildId", JStr (str guild_id));
              ("sessionId", JStr session_id);
              ("event", JObj [("token", JStr token);
                              ("guild_id", JStr (str guild_id));
                              ("endpoint", JStr (replace endpoint "wss://" ""))])];
    _ ← create_new_node guild_id true;
    mret tt.

End LavalinkClient.

(** ** websocket.py: [WS.callback] *)

(** The fields [callback] reads from an ["event"] frame, by its ["type"]. *)
Inductive EventBody : Type :=
| TrackStart
| TrackEnd (reason : string)
| TrackException (exception message severity cause : string)
| TrackStuck (thresholdMs : Z)
| WebSocketClosed (code : Z) (reason : string) (byRemote : bool)
| OtherType (type : string).

(** An inbound frame, by its ["op"].  ["track"] is read with [.get] and may
    be missing; ["guildId"] of an event frame is given as the integer its
    text denotes ([int(pyload["guildId"])]). *)
Inductive Payload : Type :=
| Stats (playingPlayers memory_used memory_free players uptime : Z)
| PlayerUpdateOp (guildId : string) (time : Z) (position : option Z) (connected : bool)
| EventOp (track : option string) (guildId : Z) (body : EventBody)
| OtherOp (op : string).

(** [not pyload.get("track")]: the key is missing, or holds an empty handle. *)
Definition falsy_str (track : option string) : bool :=
  match track with
  | None => true
  | Some h => String.eqb h ""
  end.

Section WS.

Variable api_decodetrack : string -> Track.

Definition callback (pyload : Payload) : Coro unit :=
  match pyload with
  | Stats playingPlayers memory_used memory_free players uptime =>
      fun s =>
        (Returned tt,
         mkClient (_nodes s) (requesters s) (next_oid s)
           (Some (mkInfo playingPlayers memory_used memory_free players uptime))
           (wire s) (emitted s))
  | PlayerUpdateOp guildId time position connected =>
      emit "playerUpdate" (PlayerUpdate guildId time position connected)
  | EventOp handle guildId body =>
      if falsy_str handle then mret tt
      else
        track ← _decodetrack api_decodetrack (default "" handle);
        let guild_id := guildId in
        node ← try_except_NodeError (get_guild_node guild_id) (mret None);
        match body with
        | TrackStart =>
            emit "TrackStartEvent" (TrackStartEvent track guild_id)
        | TrackEnd reason =>
            _ ← emit "TrackEndEvent" (TrackEndEvent track guild_id reason);
            match node with
            | None => mret tt
            | Some node =>
                match objects.queue node with
                | [] => mret tt
                | head :: rest =>
                    if objects.repeat node then
                      requester ← get_requester head;
                      play guild_id track requester true
                    else
                      let node := mkNode (objects.guild_id node) rest
                                    (objects.volume node) (objects.repeat node)
                                    (is_connected node) in
                      _ ← set_guild_node guild_id node;
                      match objects.queue node with
                      | [] => mret tt
                      | head' :: _ =>
                          requester ← get_requester head';
                          play guild_id head' requester true
                      end
                end
            end
        | TrackException exception message severity cause =>
            emit "TrackExceptionEvent"
              (TrackExceptionEvent track guild_id exception message severity cause)
        | TrackStuck thresholdMs =>
            emit "TrackStuckEvent" (TrackStuckEvent track guild_id thresholdMs)
        | WebSocketClosed code reason byRemote =>
            emit "WebSocketClosedEvent"
              (WebSocketClosedEvent track guild_id code reason byRemote)
        | OtherType _ => mret tt
        end
  | OtherOp _ => mret tt
  end.

End WS.

(** A client just constructed: empty registry, nothing sent or emitted. *)
Definition new_client : Client := mkClient ∅ ∅ O None [] [].

(** Every node sits under its own guild id.  [create_new_node] is the only
    place a node is built, and every [set_guild_node] of the client stores
    back the node it read under the same key. *)
Definition nodes_keyed (s : Client) : Prop :=
  ∀ g n, _nodes s !! g = Some n → objects.guild_id n = g.

(** ** Observations *)

(** The frames a call puts on the socket, and the events it emits. *)
Definition sent_by {A} (m : Coro A) (s : Client) : list dict :=
  drop (List.length (wire s)) (wire (m s).2).

Definition emitted_by {A} (m : Coro A) (s : Client) : list (string * Event) :=
  drop (List.length (emitted s)) (emitted (m s).2).

Definition has_op (op : string) (frame : dict) : bool :=
  match dict_get "op" frame with
  | Some (JStr o) => String.eqb o op
  | _ => false
  end.

Definition count_op (op : string) (frames : list dict) : nat :=
  List.length (List.filter (has_op op) frames).

(** The frames of the command API, as the source writes them. *)
Definition play_frame (guild_id : Z) (t : Track) : dict :=
  [("op", JStr "play"); ("guildId", JStr (str guild_id));
   ("track", JStr (objects.track t)); ("startTime", JStr "0");
   ("noReplace", JBool false)].

Definition stop_frame (guild_id : Z) : dict :=
  [("op", JStr "stop"); ("guildId", JStr (str guild_id))].

Definition volume_frame (guild_id v : Z) : dict :=
  [("op", JStr "volume"); ("guildId", JStr (str guild_id)); ("volume", JInt v)].

Definition destroy_frame (guild_id : Z) : dict :=
  [("op", JStr "destroy"); ("guildId", JStr (str guild_id))].

Definition voiceUpdate_frame (guild_id : Z) (session_id token endpoint : string) : dict :=
  [("op", JStr "voiceUpdate"); ("guildId", JStr (str guild_id));
   ("sessionId", JStr session_id);
   ("event", JObj [("token", JStr token); ("guild_id", JStr (str guild_id));
                   ("endpoint", JStr endpoint)])].

(** Field updates of a node. *)
Definition set_queue (q : list Track) (n : Node) : Node :=
  mkNode (objects.guild_id n) q (objects.volume n) (objects.repeat n) (is_connected n).

Definition set_volume (v : Z) (n : Node) : Node :=
  mkNode (objects.guild_id n) (objects.queue n) v (objects.repeat n) (is_connected n).

Definition set_repeat (b : bool) (n : Node) : Node :=
  mkNode (objects.guild_id n) (objects.queue n) (objects.volume n) b (is_connected n).

(** The exceptions the commands raise. *)
Definition not_found (g : Z) : Exn := NodeError "Node not found" g.

Definition volume_error (g : Z) : Exn :=
  VolumeError "Volume may range from 0 to 1000. 100 is default" g.

(** The object [callback] decodes from a frame's handle. *)
Definition decoded (api : string → Track) (s : Client) (h : string) : Track :=
  new_Track (next_oid s) h (api h).

(** [old in s]. *)
Fixpoint occurs (old s : string) : bool :=
  match s with
  | EmptyString => String.prefix old EmptyString
  | String _ s' => String.prefix old s || occurs old s'
  end.

(** [s.removeprefix(p)]: what "the scheme prefix stripped" asks for. *)
Fixpoint removeprefix_from (p s : string) : option string :=
  match p with
  | EmptyString => Some s
  | String a p' =>
      match s with
      | EmptyString => None
      | String b s' => if Ascii.eqb a b then removeprefix_from p' s' else None
      end
  end.

Definition removeprefix (s p : string) : string :=
  default s (removeprefix_from p s).

(** ** The command API as a whole *)

Inductive Command : Type :=
| Play (guild_id : Z) (track : Track) (requester : option Z) (start : bool)
| Stop (guild_id : Z)
| Skip (guild_id : Z)
| Pause (guild_id : Z) (stats : bool)
| Seek (guild_id : Z) (position : Z)
| Volume (guild_id : Z) (volume : Z)
| Repeat (guild_id : Z) (stats : bool)
| ApplyFilters (guild_id : Z) (filters : Filters)
| Shuffle (rng : nat → nat) (guild_id : Z)
| Destroy (guild_id : Z)
| VoiceUpdate (guild_id : Z) (session_id token endpoint : string)
    (channel_id : option Z).

(** The guild a command is addressed to. *)
Definition target (c : Command) : Z :=
  match c with
  | Play g _ _ _ | Stop g | Skip g | Pause g _ | Seek g _ | Volume g _
  | Repeat g _ | ApplyFilters g _ | Shuffle _ g | Destroy g
  | VoiceUpdate g _ _ _ _ => g
  end.

(** The client once the command has returned or raised. *)
Definition state_after (rd : bool) (c : Command) (s : Client) : Client :=
  match c with
  | Play g t r start => (play g t r start s).2
  | Stop g => (stop g s).2
  | Skip g => (skip g s).2
  | Pause g b => (pause g b s).2
  | Seek g pos => (seek g pos s).2
  | Volume g v => (volume g v s).2
  | Repeat g b => (repeat g b s).2
  | ApplyFilters g f => (filters g f s).2
  | Shuffle rng g => (shuffle rng g s).2
  | Destroy g => (destroy g s).2
  | VoiceUpdate g sid tok ep ch => (voice_update rd g sid tok ep ch s).2
  end.

(** The track object whose [requester] the command assigns, if any. *)
Definition assigns_requester (c : Command) : option Track :=
  match c with
  | Play _ t _ false => Some t
  | _ => None
  end.

Fixpoint run_commands (rd : bool) (cs : list Command) (s : Client) : Client :=
  match cs with
  | [] => s
  | c :: cs' => run_commands rd cs' (state_after rd c s)
  end.

(** The states a client goes through: constructed, then commands and
    inbound frames in any order. *)
Inductive reachable (api : string → Track) (rd : bool) : Client → Prop :=
| reachable_new : reachable api rd new_client
| reachable_command c s :
    reachable api rd s → reachable api rd (state_after rd c s)
| reachable_frame pyload s :
    reachable api rd s → reachable api rd (callback api pyload s).2.

(** The requesters seen when reading a session's queue. *)
Definition queue_requesters (s : Client) (g : Z) : option (list (option Z)) :=
  (λ n, requester_of s <$> objects.queue n) <$> _nodes s !! g.

(** ** websocket.py: [WS._connect] *)

(** A message of the socket, by its [type]; [msg.json()] of a text message
    is the frame it carries. *)
Inductive WSMsg : Type :=
| TEXT (json : Payload)
| CLOSED
| ERROR (data : string)
| OtherMsg.

Section WS_connect.

Variable api_decodetrack : string → Track.

(** The [async for msg in self.ws] loop of [_connect], over the messages
    the socket delivers: a text message goes to [callback], a closed or
    error message breaks the loop, any other message is skipped.  Opening
    the session and the logging calls leave the modelled state alone. *)
Fixpoint _connect (msgs : list WSMsg) : Coro unit :=
  match msgs with
  | [] => mret tt
  | TEXT json :: msgs' => _ ← callback api_decodetrack json; _connect msgs'
  | CLOSED :: _ => mret tt
  | ERROR _ :: _ => mret tt
  | OtherMsg :: msgs' => _connect msgs'
  end.

End WS_connect.

(** ** client.py: the voice-signalling entry points *)

Module voice.

(** Modelled from the spec: the [ConnectionInfo] class (objects.py), built
    as [ConnectionInfo(guild_id, session_id, channel_id)]. *)
Record ConnectionInfo : Type := mkConnectionInfo {
  guild_id : Z;
  session_id : string;
  channel_id : Z
}.

End voice.

(** The client together with the two attributes the voice entry points
    read: [self.user_id] and [self._voice_handlers]. *)
Record VoiceClient : Type := mkVoiceClient {
  client : Client;
  user_id : Z;
  _voice_handlers : gmap Z voice.ConnectionInfo
}.

Definition VoiceCoro (A : Type) : Type := VoiceClient → Outcome A * VoiceClient.

(** A coroutine of the client, run inside the larger state. *)
Definition in_client {A} (m : Coro A) : VoiceCoro A :=
  fun v =>
    let '(r, s') := m (client v) in
    (r, mkVoiceClient s' (user_id v) (_voice_handlers v)).

Definition raw_voice_state_update (guild_id uid : Z) (session_id : string)
    (channel_id : option Z) : VoiceCoro unit :=
  fun v =>
    if negb (uid =? user_id v) then (Returned tt, v)
    else
      match channel_id with
      | None => in_client (destroy guild_id) v
      | Some c =>
          if c =? 0 then in_client (destroy guild_id) v
          else
            (Returned tt,
             mkVoiceClient (client v) (user_id v)
               (<[guild_id := voice.mkConnectionInfo guild_id session_id c]>
                  (_voice_handlers v)))
      end.

Definition raw_voice_server_update (rd : bool) (guild_id : Z)
    (endpoint token : string) : VoiceCoro unit :=
  fun v =>
    match _voice_handlers v !! guild_id with
    | None => (Returned tt, v)
    | Some connection_info =>
        in_client
          (voice_update rd guild_id (voice.session_id connection_info) token
             endpoint (Some (voice.channel_id connection_info))) v
    end.

(** ** client.py: [add_to_queue] *)

(** The event loop as far as [add_to_queue] uses it: the client it runs
    and the tasks created and not yet run, oldest first. *)
Record Loop : Type := mkLoop {
  running : Client;
  ready : list (Coro unit)
}.

(** [self._loop.create_task(coro)]. *)
Definition create_task (coro : Coro unit) (l : Loop) : Loop :=
  mkLoop (running l) (ready l ++ [coro]).

Definition add_to_queue (guild_id : Z) (tracks : list Track)
    (requester : option Z) : Loop → Outcome unit * Loop :=
  fun l =>
    match get_guild_node guild_id (running l) with
    | (Returned None, s) =>
        (Raised (NodeError "Node not found" guild_id), mkLoop s (ready l))
    | (Returned (Some _), s) =>
        (Returned tt,
         foldl (λ l track, create_task (play guild_id track requester false) l)
           (mkLoop s (ready l)) tracks)
    | (Raised e, s) => (Raised e, mkLoop s (ready l))
    end.

(** The loop runs the tasks it holds in the order they were created.  A
    [play] task suspends at its final [send] only, after its registry
    write, so each task's effect on the client is that of the whole call;
    an exception ends the task it is raised in and nothing else. *)
Definition run_ready (l : Loop) : Loop :=
  mkLoop (foldl (λ s task, (task s).2) (running l) (ready l)) [].

(** ** client.py: track lookup *)

(** Modelled from the spec: the [PlayList] class (objects.py): name,
    selected track index and tracks, in the order [get_tracks] passes. *)
Record PlayList : Type := mkPlayList {
  name : string;
  selected_track : Z;
  tracks : list Track
}.

(** Modelled from the spec: the answer of [Api.request("GET",
    "/loadtracks", ...)] (api.py), with the keys the client reads: the load
    type, the tracks (each a handle and its info, carried as a [Track]
    whose [oid] is not used), the playlist info and the exception. *)
Record LoadTracks : Type := mkLoadTracks {
  loadType : string;
  result_tracks : list Track;
  playlistInfo_name : string;
  playlistInfo_selectedTrack : Z;
  exception_message : string;
  exception_severity : string
}.

(** What a lookup hands back or raises: a list of tracks, a playlist,
    [None], or the [TrackLoadFailed] exception (lavaplayer/exceptions.py)
    with its message and severity. *)
Inductive Lookup : Type :=
| TrackList (l : list Track)
| ThePlayList (p : PlayList)
| PyNone
| TrackLoadFailed (message severity : string).

Section Lookups.

Variable api_loadtracks : string → LoadTracks.

(** [_prossing_tracks]: one new [Track] object per item, in order. *)
Fixpoint _prossing_tracks (raw : list Track) (s : Client) : list Track * Client :=
  match raw with
  | [] => ([], s)
  | r :: raw' =>
      let t := new_Track (next_oid s) (objects.track r) r in
      let s1 := mkClient (_nodes s) (requesters s) (S (next_oid s)) (info s)
                  (wire s) (emitted s) in
      let '(ts, s2) := _prossing_tracks raw' s1 in
      (t :: ts, s2)
  end.

Definition search_youtube (query : string) (s : Client) : Lookup * Client :=
  let result := api_loadtracks (String.append "ytsearch:" query) in
  if String.eqb (loadType result) "NO_MATCHES" then (TrackList [], s)
  else if String.eqb (loadType result) "LOAD_FAILED" then (PyNone, s)
  else
    let '(ts, s') := _prossing_tracks (result_tracks result) s in
    (TrackList ts, s').

Definition get_tracks (query : string) (s : Client) : Lookup * Client :=
  let result := api_loadtracks query in
  if String.eqb (loadType result) "NO_MATCHES" then (TrackList [], s)
  else if String.eqb (loadType result) "LOAD_FAILED"
  then (TrackLoadFailed (exception_message result) (exception_severity result), s)
  else if String.eqb (loadType result) "PLAYLIST_LOADED" then
    let '(ts, s') := _prossing_tracks (result_tracks result) s in
    (ThePlayList (mkPlayList (playlistInfo_name result)
                    (playlistInfo_selectedTrack result) ts), s')
  else
    let '(ts, s') := _prossing_tracks (result_tracks result) s in
    (TrackList ts, s').

(** ["http" in query] picks the lookup. *)
Definition auto_search_tracks (query : string) (s : Client) : Lookup * Client :=
  if occurs "http" query then get_tracks query s
  else search_youtube query s.

End Lookups.

(** ** Further observations *)

(** A message that ends the receive loop. *)
Definition closing (m : WSMsg) : bool :=
  match m with
  | CLOSED | ERROR _ => true
  | _ => false
  end.

(** The text messages of TrackEnd frames for one guild, one per
    [(handle, reason)] pair. *)
Definition track_end_msgs (g : Z) (evs : list (string * string)) : list WSMsg :=
  (λ ev, TEXT (EventOp (Some ev.1) g (TrackEnd ev.2))) <$> evs.

(** The play frame for a track handle. *)
Definition play_frame_of (g : Z) (handle : string) : dict :=
  [("op", JStr "play"); ("guildId", JStr (str g)); ("track", JStr handle);
   ("startTime", JStr "0"); ("noReplace", JBool false)].

(** The node stored for a guild, if any, after a coroutine ran. *)
Definition node_after {A} (m : Coro A) (s : Client) (g : Z) : option Node :=
  _nodes (m s).2 !! g.

(** ** Sample data *)

Definition demo_track (i : nat) (handle : string) : Track :=
  mkTrack i handle "id" true "author" 1000 false 0 None None "uri".

Definition demo_node (g : Z) (q : list Track) (rep : bool) : Node :=
  mkNode g q 100 rep true.

Definition demo_client (nodes : list (Z * Node)) : Client :=
  mkClient (list_to_map nodes) ∅ 10 None [] [].

(** ** Running the coroutines *)

Ltac run :=
  cbv [mbind mret Coro_bind Coro_ret bind ret raise modify get_guild_node
       set_guild_node remove_guild_node send emit set_requester get_requester
       try_except_NodeError with_nodes with_requesters];
  cbn [_nodes requesters next_oid info wire emitted fst snd].

Example str_samples : str 0 = "0" ∧ str 1203 = "1203" ∧ str (-15) = "-15".
Proof. by vm_compute. Qed.

Example replace_samples :
  replace "wss://eu.example:443" "wss://" "" = "eu.example:443"
  ∧ replace "eu.example:443" "wss://" "" = "eu.example:443"
  ∧ replace "awss://wss:/wss://b" "wss://" "" = "awss:/b".
Proof. by vm_compute. Qed.

Example sample_samples :
  sample (λ _, 0%nat) [1; 2; 3; 4] 4 = [1; 4; 3; 2]
  ∧ sample (λ i, S i) [1; 2; 3; 4] 4 = [2; 3; 4; 1]
  ∧ sample (λ _, 0%nat) ([] : list Z) 0 = [].
Proof. by vm_compute. Qed.

Lemma drop_own_length {A} (l k : list A) : drop (List.length l) (l ++ k) = k.
Proof. by rewrite drop_app_length. Qed.

Lemma drop_all_own {A} (l : list A) : drop (List.length l) l = [].
Proof. by rewrite drop_all. Qed.

Section PlayFacts.

Variables (s : Client) (g : Z) (node : Node) (t : Track) (r : option Z).
Hypothesis Hnode : _nodes s !! g = Some node.

Lemma play_queue_run :
  play g t r false s =
    (Returned tt,
     mkClient (<[g := set_queue (objects.queue node ++ [t]) node]> (_nodes s))
       (<[oid t := r]> (requesters s)) (next_oid s) (info s)
       (wire s ++ (if (List.length (objects.queue node ++ [t]) =? 1)%nat
                   then [play_frame g t] else []))
       (emitted s)).
Proof.
  unfold play. run. rewrite Hnode. cbn [objects.queue].
  destruct (List.length (objects.queue node ++ [t]) =? 1)%nat; cbn.
  - reflexivity.
  - by rewrite app_nil_r.
Qed.

Lemma play_force_run :
  play g t r true s =
    (Returned tt,
     mkClient (_nodes s) (requesters s) (next_oid s) (info s)
       (wire s ++ [play_frame g t]) (emitted s)).
Proof. unfold play. run. by rewrite Hnode. Qed.

End PlayFacts.

(** ** Enqueueing a single track *)

(** C1. For an existing session and any track, [play] without the force
    flag returns normally, appends the track to the tail of the session's
    queue and stores the node back under its guild id (with the requester
    attached to the track); the frames it sends are exactly one play frame
    when the queue length after the append is 1 and none otherwise, so a
    call on a queue that already held a track sends no play frame. *)
Theorem play_appends_and_starts_only_sole_track
    (s : Client) (g : Z) (node : Node) (t : Track) (r : option Z) :
  _nodes s !! g = Some node →
  let q' := objects.queue node ++ [t] in
  ∃ s', play g t r false s = (Returned tt, s')
    ∧ _nodes s' = <[g := set_queue q' node]> (_nodes s)
    ∧ requester_of s' t = r
    ∧ sent_by (play g t r false) s =
        (if (List.length q' =? 1)%nat then [play_frame g t] else [])
    ∧ (count_op "play" (sent_by (play g t r false) s) = 1%nat
       ↔ List.length q' = 1%nat)
    ∧ ((1 ≤ List.length (objects.queue node))%nat →
       sent_by (play g t r false) s = []
       ∧ count_op "play" (sent_by (play g t r false) s) = 0%nat).
Proof.
  intros Hnode q'. eexists. split; [by apply play_queue_run|].
  unfold sent_by. rewrite (play_queue_run s g node t r Hnode).
  cbn [snd _nodes wire]. rewrite drop_own_length.
  split; [done|]. split.
  { unfold requester_of; cbn. by rewrite lookup_insert_eq. }
  split; [done|].
  assert (Hlen : List.length q' = S (List.length (objects.queue node))).
  { unfold q'. rewrite length_app. cbn. lia. }
  fold q'. split.
  - destruct (Nat.eqb_spec (List.length q') 1) as [->|Hne]; cbn; [done|].
    split; [done|]. intros; lia.
  - intros Hpos. destruct (Nat.eqb_spec (List.length q') 1) as [E|Hne]; [lia|done].
Qed.

Lemma play_appends_and_starts_only_sole_track_witness :
  let s := demo_client [(1, demo_node 1 [demo_track 0 "QAAA"] false)] in
  ∃ s', play 1 (demo_track 1 "QBBB") (Some 42) false s = (Returned tt, s')
    ∧ sent_by (play 1 (demo_track 1 "QBBB") (Some 42) false) s = [].
Proof.
  intros s.
  destruct (play_appends_and_starts_only_sole_track s 1
              (demo_node 1 [demo_track 0 "QAAA"] false)
              (demo_track 1 "QBBB") (Some 42))
    as (s' & Hrun & _ & _ & Hsent & _).
  - vm_compute. reflexivity.
  - exists s'. split; [exact Hrun | exact Hsent].
Defined.

(** ** Track-end handling *)

Section CallbackFacts.

Variable api : string -> Track.
Variables (s : Client) (g : Z) (h : string).
Hypothesis Hh : h ≠ "".


Lemma falsy_str_handle : falsy_str (Some h) = false.
Proof. cbn. by apply String.eqb_neq. Qed.

Lemma callback_no_track body :
  callback api (EventOp None g body) s = (Returned tt, s).
Proof. reflexivity. Qed.

Lemma callback_empty_track body :
  callback api (EventOp (Some "") g body) s = (Returned tt, s).
Proof. reflexivity. Qed.

Lemma callback_closed_run code reason byRemote :
  callback api (EventOp (Some h) g (WebSocketClosed code reason byRemote)) s =
    (Returned tt,
     mkClient (_nodes s) (requesters s) (S (next_oid s)) (info s) (wire s)
       (emitted s ++
          [("WebSocketClosedEvent",
            WebSocketClosedEvent (decoded api s h) g code reason byRemote)])).
Proof.
  unfold callback. rewrite falsy_str_handle. unfold _decodetrack. run.
  reflexivity.
Qed.

Lemma callback_track_end_repeat_run node head rest reason :
  _nodes s !! g = Some node →
  objects.queue node = head :: rest →
  objects.repeat node = true →
  callback api (EventOp (Some h) g (TrackEnd reason)) s =
    (Returned tt,
     mkClient (_nodes s) (requesters s) (S (next_oid s)) (info s)
       (wire s ++ [play_frame g (decoded api s h)])
       (emitted s ++ [("TrackEndEvent", TrackEndEvent (decoded api s h) g reason)])).
Proof.
  intros Hnode Hq Hrep.
  unfold callback. rewrite falsy_str_handle. unfold _decodetrack. run.
  rewrite Hnode, Hq, Hrep. run.
  unfold play. run. by rewrite Hnode.
Qed.

Lemma callback_track_end_advance_run node head next rest reason :
  _nodes s !! g = Some node →
  objects.queue node = head :: next :: rest →
  objects.repeat node = false →
  callback api (EventOp (Some h) g (TrackEnd reason)) s =
    (Returned tt,
     mkClient (<[g := set_queue (next :: rest) node]> (_nodes s))
       (requesters s) (S (next_oid s)) (info s)
       (wire s ++ [play_frame g next])
       (emitted s ++ [("TrackEndEvent", TrackEndEvent (decoded api s h) g reason)])).
Proof.
  intros Hnode Hq Hrep.
  unfold callback. rewrite falsy_str_handle. unfold _decodetrack. run.
  rewrite Hnode, Hq, Hrep. run.
  cbn [objects.queue]. run. unfold play. run.
  rewrite lookup_insert_eq. unfold set_queue. by rewrite Hrep.
Qed.

End CallbackFacts.

(** ** [random.sample] draws a permutation *)

Lemma cons_insert_Permutation {A} (l : list A) (j : nat) (x y : A) :
  l !! j = Some x → x :: <[j := y]> l ≡ₚ l ++ [y].
Proof.
  revert j. induction l as [|a l IH]; intros [|j] Hj; simplify_eq/=.
  - by rewrite (Permutation_cons_append l y).
  - rewrite Permutation_swap. f_equiv. by apply IH.
Qed.

Lemma sample_loop_Permutation {A} (rng : nat → nat) (n : nat) :
  ∀ (k : nat) (pool : list A) (i : nat),
    (n - i = k)%nat → (k ≤ List.length pool)%nat →
    sample_loop rng n pool i k ≡ₚ take k pool.
Proof.
  induction k as [|k IH]; intros pool i Hi Hlen; [done|].
  cbn [sample_loop]. unfold randbelow. rewrite Hi.
  assert (Hj : (rng i mod S k < S k)%nat) by (apply Nat.mod_upper_bound; lia).
  set (j := (rng i mod S k)%nat) in *.
  replace (S k - 1)%nat with k by lia.
  destruct (lookup_lt_is_Some_2 pool j) as [x Hx]; [lia|].
  destruct (lookup_lt_is_Some_2 pool k) as [y Hy]; [lia|].
  rewrite Hx, Hy.
  rewrite (IH (<[j := y]> pool) (S i)); [|lia|rewrite length_insert; lia].
  rewrite (take_S_r pool k y Hy).
  destruct (decide (j = k)) as [->|Hne].
  - rewrite take_insert_ge by lia. simplify_eq.
    by rewrite (Permutation_cons_append (take k pool) x).
  - rewrite take_insert_lt by lia.
    apply cons_insert_Permutation. rewrite lookup_take_lt by lia. done.
Qed.

Lemma sample_Permutation {A} (rng : nat → nat) (l : list A) :
  sample rng l (List.length l) ≡ₚ l.
Proof.
  unfold sample. rewrite sample_loop_Permutation; [|lia|lia].
  by rewrite take_ge.
Qed.

Lemma list_remove_head {A} `{EqDecision A} (x : A) (l : list A) :
  list_remove x (x :: l) = l.
Proof. cbn. by rewrite decide_True. Qed.

(** ** Commands on a session the registry lacks *)

Section AbsentSession.

Variables (s : Client) (g : Z).
Hypothesis Habsent : _nodes s !! g = None.

Lemma play_absent t r start : play g t r start s = (Raised (not_found g), s).
Proof. unfold play. run. by rewrite Habsent. Qed.

Lemma skip_absent : skip g s = (Raised (not_found g), s).
Proof. unfold skip. run. by rewrite Habsent. Qed.

Lemma pause_absent b : pause g b s = (Raised (not_found g), s).
Proof. unfold pause. run. by rewrite Habsent. Qed.

Lemma seek_absent pos : seek g pos s = (Raised (not_found g), s).
Proof. unfold seek. run. by rewrite Habsent. Qed.

Lemma filters_absent f : filters g f s = (Raised (not_found g), s).
Proof. unfold filters. run. by rewrite Habsent. Qed.

Lemma shuffle_absent rng : shuffle rng g s = (Raised (not_found g), s).
Proof. unfold shuffle. run. by rewrite Habsent. Qed.

Lemma destroy_absent : destroy g s = (Raised (not_found g), s).
Proof. unfold destroy. run. by rewrite Habsent. Qed.

Lemma volume_absent v : 0 ≤ v ≤ 1000 → volume g v s = (Raised (not_found g), s).
Proof.
  intros Hv. unfold volume.
  replace ((v <? 0) || (v >? 1000)) with false by lia.
  run. by rewrite Habsent.
Qed.

Lemma stop_absent : stop g s = (Raised AttributeError, s).
Proof. unfold stop. run. by rewrite Habsent. Qed.

Lemma repeat_absent b : repeat g b s = (Raised AttributeError, s).
Proof. unfold repeat. run. by rewrite Habsent. Qed.

End AbsentSession.

Lemma volume_out_of_range (s : Client) (g v : Z) :
  v < 0 ∨ 1000 < v → volume g v s = (Raised (volume_error g), s).
Proof.
  intros Hv. unfold volume.
  by replace ((v <? 0) || (v >? 1000)) with true by lia.
Qed.

(** ** Commands on a session the registry holds *)

Section PresentSession.

Variables (s : Client) (g : Z) (node : Node).
Hypothesis Hnode : _nodes s !! g = Some node.

Lemma volume_run v :
  0 ≤ v ≤ 1000 →
  volume g v s =
    (Returned tt,
     mkClient (<[g := set_volume v node]> (_nodes s)) (requesters s)
       (next_oid s) (info s) (wire s ++ [volume_frame g v]) (emitted s)).
Proof.
  intros Hv. unfold volume.
  replace ((v <? 0) || (v >? 1000)) with false by lia.
  run. by rewrite Hnode.
Qed.

Lemma repeat_run b :
  repeat g b s =
    (Returned tt,
     mkClient (<[g := set_repeat b node]> (_nodes s)) (requesters s)
       (next_oid s) (info s) (wire s) (emitted s)).
Proof. unfold repeat. run. by rewrite Hnode. Qed.

Lemma stop_empty_run :
  objects.queue node = [] → stop g s = (Raised (not_found g), s).
Proof. intros Hq. unfold stop. run. by rewrite Hnode, Hq. Qed.

Lemma stop_run :
  objects.queue node ≠ [] →
  stop g s =
    (Returned (set_queue [] node),
     mkClient (<[g := set_queue [] node]> (_nodes s)) (requesters s)
       (next_oid s) (info s) (wire s ++ [stop_frame g]) (emitted s)).
Proof.
  intros Hq. unfold stop. run. rewrite Hnode.
  by destruct (objects.queue node).
Qed.

Lemma skip_empty_run :
  objects.queue node = [] → skip g s = (Returned None, s).
Proof. intros Hq. unfold skip. run. by rewrite Hnode, Hq. Qed.

Lemma skip_run :
  objects.queue node ≠ [] →
  skip g s =
    (Returned (Some node),
     mkClient (_nodes s) (requesters s) (next_oid s) (info s)
       (wire s ++ [stop_frame g]) (emitted s)).
Proof.
  intros Hq. unfold skip. run. rewrite Hnode.
  by destruct (objects.queue node).
Qed.

Lemma pause_run b :
  pause g b s =
    (Returned tt,
     mkClient (_nodes s) (requesters s) (next_oid s) (info s)
       (wire s ++ [[("op", JStr "pause"); ("guildId", JStr (str g));
                    ("pause", JBool b)]])
       (emitted s)).
Proof. unfold pause. run. by rewrite Hnode. Qed.

Lemma seek_run pos :
  seek g pos s =
    (Returned tt,
     mkClient (_nodes s) (requesters s) (next_oid s) (info s)
       (wire s ++ [[("op", JStr "seek"); ("guildId", JStr (str g));
                    ("position", JInt pos)]])
       (emitted s)).
Proof. unfold seek. run. by rewrite Hnode. Qed.

Lemma filters_run f :
  filters g f s =
    (Returned tt,
     mkClient (_nodes s) (requesters s) (next_oid s) (info s)
       (wire s ++ [dict_set "guildId" (JStr (str g)) (_payload f)])
       (emitted s)).
Proof. unfold filters. run. by rewrite Hnode. Qed.

Lemma shuffle_empty_run rng :
  objects.queue node = [] → shuffle rng g s = (Returned EmptyList, s).
Proof. intros Hq. unfold shuffle. run. by rewrite Hnode, Hq. Qed.

Lemma shuffle_run rng np rest :
  objects.queue node = np :: rest →
  let q := np :: sample rng rest (List.length rest) in
  shuffle rng g s =
    (Returned (TheNode (set_queue q node)),
     mkClient (<[g := set_queue q node]> (_nodes s)) (requesters s)
       (next_oid s) (info s) (wire s) (emitted s)).
Proof.
  intros Hq q. unfold shuffle. run. rewrite Hnode, Hq.
  by rewrite list_remove_head.
Qed.

(** [destroy] pops the key the node names. *)
Lemma destroy_run :
  objects.guild_id node = g →
  destroy g s =
    (Returned tt,
     mkClient (delete g (_nodes s)) (requesters s) (next_oid s) (info s)
       (wire s ++ [destroy_frame g]) (emitted s)).
Proof.
  intros Hg. unfold destroy. run. rewrite Hnode. cbn. rewrite Hnode.
  rewrite Hg, Hnode. reflexivity.
Qed.

End PresentSession.

Lemma voice_update_run (rd : bool) (s : Client) (g : Z)
    (session_id token endpoint : string) (c : Z) :
  c ≠ 0 →
  voice_update rd g session_id token endpoint (Some c) s =
    (Returned tt,
     mkClient (<[g := mkNode g [] 100 rd true]> (_nodes s)) (requesters s)
       (next_oid s) (info s)
       (wire s ++ [voiceUpdate_frame g session_id token
                     (replace endpoint "wss://" "")])
       (emitted s)).
Proof.
  intros Hc. unfold voice_update, falsy_id.
  replace (c =? 0) with false by lia.
  unfold create_new_node. run. reflexivity.
Qed.

Lemma voice_update_falsy (rd : bool) (s : Client) (g : Z)
    (session_id token endpoint : string) (channel_id : option Z) :
  falsy_id channel_id = true →
  voice_update rd g session_id token endpoint channel_id s = destroy g s.
Proof. intros Hc. unfold voice_update. by rewrite Hc. Qed.

(** ** The endpoint's scheme *)

Lemma replace_without_occurrence (old new s : string) :
  occurs old s = false → replace s old new = s.
Proof.
  unfold replace. induction s as [|c s IH]; [done|].
  cbn [occurs replace_from]. intros [Hp Ho]%orb_false_iff.
  rewrite Hp. f_equal. by apply IH.
Qed.

Lemma prefix_empty (s : string) : String.prefix "" s = true.
Proof. by destruct s. Qed.

Lemma prefix_same_head (a : Ascii.ascii) (s1 s2 : string) :
  String.prefix (String a s1) (String a s2) = String.prefix s1 s2.
Proof. cbn. by destruct (Ascii.ascii_dec a a). Qed.

Lemma replace_wss_prefix (host : string) :
  replace (String.append "wss://" host) "wss://" "" = replace host "wss://" "".
Proof.
  unfold replace. cbv [String.append]. cbn [replace_from].
  rewrite !prefix_same_head, prefix_empty. reflexivity.
Qed.

Lemma replace_strips_wss (host : string) :
  occurs "wss://" host = false →
  replace (String.append "wss://" host) "wss://" "" = host.
Proof.
  intros Ho. rewrite replace_wss_prefix. by apply replace_without_occurrence.
Qed.

(** ** Effects of a command on the registry *)

Lemma volume_cases (v : Z) : (v < 0 ∨ 1000 < v) ∨ 0 ≤ v ≤ 1000.
Proof. lia. Qed.

Lemma state_after_cases (rd : bool) (c : Command) (s : Client) :
  let g := target c in
  let s' := state_after rd c s in
  (_nodes s' = _nodes s
   ∨ (∃ n n', _nodes s !! g = Some n ∧ objects.guild_id n' = objects.guild_id n
              ∧ _nodes s' = <[g := n']> (_nodes s))
   ∨ (∃ n, _nodes s !! g = Some n
           ∧ _nodes s' = delete (objects.guild_id n) (_nodes s))
   ∨ (∃ n', objects.guild_id n' = g ∧ _nodes s' = <[g := n']> (_nodes s)))
  ∧ (requesters s' = requesters s
     ∨ ∃ t r, assigns_requester c = Some t
              ∧ requesters s' = <[oid t := r]> (requesters s)).
Proof.
  assert (Hdestroy : ∀ g,
    _nodes (destroy g s).2 = _nodes s
    ∨ (∃ n, _nodes s !! g = Some n
            ∧ _nodes (destroy g s).2 = delete (objects.guild_id n) (_nodes s))).
  { intros g. unfold destroy. run.
    destruct (_nodes s !! g) as [n|] eqn:Hn; cbn; [|by left].
    rewrite Hn. destruct (_nodes s !! objects.guild_id n); cbn; [|by left].
    right. by exists n. }
  assert (Hdestroy_req : ∀ g, requesters (destroy g s).2 = requesters s).
  { intros g. unfold destroy. run.
    destruct (_nodes s !! g) as [n|] eqn:Hn; cbn; [|done].
    rewrite Hn. by destruct (_nodes s !! objects.guild_id n). }
  destruct c as [g t r start|g|g|g b|g pos|g v|g b|g f|rng g|g|g sid tok ep ch];
    cbn [target state_after assigns_requester];
    destruct (_nodes s !! g) as [n|] eqn:Hn.
  - destruct start.
    + rewrite (play_force_run s g n t r Hn). cbn. split; by left.
    + rewrite (play_queue_run s g n t r Hn). cbn. split.
      * right; left. by exists n, (set_queue (objects.queue n ++ [t]) n).
      * right. by exists t, r.
  - rewrite play_absent by done. split; by left.
  - destruct (decide (objects.queue n = [])) as [Hq|Hq].
    + rewrite (stop_empty_run s g n Hn Hq). split; by left.
    + rewrite (stop_run s g n Hn Hq). cbn. split; [|by left].
      right; left. by exists n, (set_queue [] n).
  - rewrite stop_absent by done. split; by left.
  - destruct (decide (objects.queue n = [])) as [Hq|Hq].
    + rewrite (skip_empty_run s g n Hn Hq). split; by left.
    + rewrite (skip_run s g n Hn Hq). split; by left.
  - rewrite skip_absent by done. split; by left.
  - rewrite (pause_run s g n Hn). split; by left.
  - rewrite pause_absent by done. split; by left.
  - rewrite (seek_run s g n Hn). split; by left.
  - rewrite seek_absent by done. split; by left.
  - destruct (volume_cases v) as [Hv|Hv].
    + rewrite volume_out_of_range by done. split; by left.
    + rewrite (volume_run s g n Hn v Hv). cbn. split; [|by left].
      right; left. by exists n, (set_volume v n).
  - destruct (volume_cases v) as [Hv|Hv].
    + rewrite volume_out_of_range by done. split; by left.
    + rewrite volume_absent by done. split; by left.
  - rewrite (repeat_run s g n Hn). cbn. split; [|by left].
    right; left. by exists n, (set_repeat b n).
  - rewrite repeat_absent by done. split; by left.
  - rewrite (filters_run s g n Hn). split; by left.
  - rewrite filters_absent by done. split; by left.
  - destruct (objects.queue n) as [|np rest] eqn:Hq.
    + rewrite (shuffle_empty_run s g n Hn rng Hq). split; by left.
    + rewrite (shuffle_run s g n Hn rng np rest Hq). cbn. split; [|by left].
      right; left.
      by exists n, (set_queue (np :: sample rng rest (List.length rest)) n).
  - rewrite shuffle_absent by done. split; by left.
  - split; [|left; apply Hdestroy_req].
    destruct (Hdestroy g) as [H|(n' & Hn' & H)]; [by left|].
    right; right; left. exists n'. split; [congruence|done].
  - rewrite destroy_absent by done. split; by left.
  - destruct (falsy_id ch) eqn:Hch.
    + rewrite voice_update_falsy by done.
      split; [|left; apply Hdestroy_req].
      destruct (Hdestroy g) as [H|(n' & Hn' & H)]; [by left|].
      right; right; left. exists n'. split; [congruence|done].
    + destruct ch as [c|]; [|done]. cbn in Hch.
      rewrite voice_update_run by lia. cbn. split; [|by left].
      right; right; right. by exists (mkNode g [] 100 rd true).
  - destruct (falsy_id ch) eqn:Hch.
    + rewrite voice_update_falsy, destroy_absent by done. split; by left.
    + destruct ch as [c|]; [|done]. cbn in Hch.
      rewrite voice_update_run by lia. cbn. split; [|by left].
      right; right; right. by exists (mkNode g [] 100 rd true).
Qed.

Lemma state_after_keyed (rd : bool) (c : Command) (s : Client) :
  nodes_keyed s → nodes_keyed (state_after rd c s).
Proof.
  intros Hk g n.
  destruct (state_after_cases rd c s)
    as [[->|[(n0 & n' & Hn0 & Hid & ->)|[(n0 & Hn0 & ->)|(n' & Hid & ->)]]] _].
  - apply Hk.
  - rewrite lookup_insert. case_decide; [|apply Hk].
    intros [= <-]. rewrite Hid. subst g. by apply Hk.
  - rewrite lookup_delete. case_decide; [done|apply Hk].
  - rewrite lookup_insert. case_decide; [|apply Hk].
    intros [= <-]. by subst g.
Qed.

Lemma new_client_keyed : nodes_keyed new_client.
Proof. intros g n. cbn. by rewrite lookup_empty. Qed.

Lemma callback_nodes_cases (api : string → Track) (pyload : Payload) (s : Client) :
  let s' := (callback api pyload s).2 in
  _nodes s' = _nodes s
  ∨ ∃ g n n', _nodes s !! g = Some n
              ∧ objects.guild_id n' = objects.guild_id n
              ∧ _nodes s' = <[g := n']> (_nodes s).
Proof.
  destruct pyload as [? ? ? ? ?|? ? ? ?|[h|] g body|?]; try by left.
  destruct (decide (h = "")) as [->|Hh]; [by left|].
  destruct body as [|reason|? ? ? ?|?|? ? ?|?];
    try (left; unfold callback; rewrite falsy_str_handle by done;
         unfold _decodetrack; run; done).
  destruct (_nodes s !! g) as [n|] eqn:Hn.
  - destruct (objects.queue n) as [|head [|next rest]] eqn:Hq.
    + left. unfold callback. rewrite falsy_str_handle by done.
      unfold _decodetrack. run. by rewrite Hn, Hq.
    + destruct (objects.repeat n) eqn:Hrep.
      * left. cbn zeta.
        by rewrite (callback_track_end_repeat_run api s g h Hh n head []).
      * right. exists g, n, (set_queue [] n). split_and!; try done.
        unfold callback. rewrite falsy_str_handle by done.
        unfold _decodetrack. run. rewrite Hn, Hq, Hrep. run.
        unfold set_queue. by rewrite Hrep.
    + destruct (objects.repeat n) eqn:Hrep.
      * left. cbn zeta.
        by rewrite (callback_track_end_repeat_run api s g h Hh n head (next :: rest)).
      * right. exists g, n, (set_queue (next :: rest) n). split_and!; try done.
        cbn zeta.
        by rewrite (callback_track_end_advance_run api s g h Hh n head next rest).
  - left. unfold callback. rewrite falsy_str_handle by done.
    unfold _decodetrack. run. by rewrite Hn.
Qed.

Lemma callback_keyed (api : string → Track) (pyload : Payload) (s : Client) :
  nodes_keyed s → nodes_keyed (callback api pyload s).2.
Proof.
  intros Hk g n.
  destruct (callback_nodes_cases api pyload s)
    as [->|(g0 & n0 & n' & Hn0 & Hid & ->)]; [apply Hk|].
  rewrite lookup_insert. case_decide; [|apply Hk].
  intros [= <-]. rewrite Hid. subst g. by apply Hk.
Qed.

Lemma reachable_keyed (api : string → Track) (rd : bool) (s : Client) :
  reachable api rd s → nodes_keyed s.
Proof.
  induction 1 as [|c s _ IH|pyload s _ IH].
  - apply new_client_keyed.
  - by apply state_after_keyed.
  - by apply callback_keyed.
Qed.

Lemma removeprefix_wss (host : string) :
  removeprefix (String.append "wss://" host) "wss://" = host.
Proof. reflexivity. Qed.

Lemma run_commands_keyed (rd : bool) (cs : list Command) (s : Client) :
  nodes_keyed s → nodes_keyed (run_commands rd cs s).
Proof.
  revert s. induction cs as [|c cs IH]; intros s Hk; [done|].
  cbn. apply IH. by apply state_after_keyed.
Qed.

(** ** Track end, repeat set *)

(** C2 (as amended). For a TrackEnd event frame that carries a non-empty
    track handle, whose session exists with [repeat] set and a non-empty
    queue, the handler returns normally, sends exactly one forced play frame,
    for the track the event names (the track that ended; this is the queue
    head whenever the event's handle is the head's), and leaves the registry,
    hence the queue's contents and length, unchanged. *)
Theorem track_end_repeat_replays_ended_track
    (api : string → Track) (s : Client) (g : Z) (h : string)
    (node : Node) (head : Track) (rest : list Track) (reason : string) :
  h ≠ "" →
  _nodes s !! g = Some node →
  objects.queue node = head :: rest →
  objects.repeat node = true →
  let ev := callback api (EventOp (Some h) g (TrackEnd reason)) in
  ∃ s', ev s = (Returned tt, s')
    ∧ sent_by ev s = [play_frame g (decoded api s h)]
    ∧ dict_get "track" (play_frame g (decoded api s h)) = Some (JStr h)
    ∧ (h = objects.track head → sent_by ev s = [play_frame g head])
    ∧ _nodes s' = _nodes s
    ∧ _nodes s' !! g = Some node.
Proof.
  intros Hh Hnode Hq Hrep ev. eexists. split.
  { by apply (callback_track_end_repeat_run api s g h Hh node head rest). }
  unfold sent_by, ev.
  rewrite (callback_track_end_repeat_run api s g h Hh node head rest reason
             Hnode Hq Hrep).
  cbn [snd wire _nodes]. rewrite drop_own_length.
  split_and!; try done.
  intros ->. reflexivity.
Qed.

Lemma track_end_repeat_replays_ended_track_witness :
  let api := demo_track 0 in
  let s := demo_client [(1, demo_node 1 [demo_track 0 "QAAA"] true)] in
  sent_by (callback api (EventOp (Some "QAAA") 1 (TrackEnd "FINISHED"))) s
    = [play_frame 1 (demo_track 0 "QAAA")].
Proof.
  intros api s.
  destruct (track_end_repeat_replays_ended_track api s 1 "QAAA"
              (demo_node 1 [demo_track 0 "QAAA"] true)
              (demo_track 0 "QAAA") [] "FINISHED")
    as (s' & _ & _ & _ & Hhead & _); [done|by vm_compute|done|done|].
  by apply Hhead.
Defined.

(** C2 as stated fails: with [repeat] set and head "QAAA", a TrackEnd frame
    naming "QBBB" makes the handler replay "QBBB", not the head; and a
    TrackEnd frame without a track handle is dropped, nothing is sent. *)
Lemma track_end_repeat_may_not_resend_head :
  let api := demo_track 0 in
  let head := demo_track 0 "QAAA" in
  let s := demo_client [(1, demo_node 1 [head] true)] in
  _nodes s !! 1 = Some (demo_node 1 [head] true)
  ∧ sent_by (callback api (EventOp (Some "QBBB") 1 (TrackEnd "REPLACED"))) s
      = [play_frame 1 (demo_track 0 "QBBB")]
  ∧ sent_by (callback api (EventOp (Some "QBBB") 1 (TrackEnd "REPLACED"))) s
      ≠ [play_frame 1 head]
  ∧ sent_by (callback api (EventOp None 1 (TrackEnd "FINISHED"))) s = [].
Proof. by vm_compute. Qed.

(** ** Track end, repeat unset, two tracks queued *)

(** C3 (as amended). For a TrackEnd event frame that carries a non-empty
    track handle, whose session exists with [repeat] unset and a queue of
    exactly two tracks, the handler returns normally, removes the original
    head from the queue, sends exactly one forced play frame, for the second
    track (the new head), and leaves a queue of length 1. *)
Theorem track_end_advances_two_track_queue
    (api : string → Track) (s : Client) (g : Z) (h : string)
    (node : Node) (first second : Track) (reason : string) :
  h ≠ "" →
  _nodes s !! g = Some node →
  objects.queue node = [first; second] →
  objects.repeat node = false →
  let ev := callback api (EventOp (Some h) g (TrackEnd reason)) in
  ∃ s' node', ev s = (Returned tt, s')
    ∧ _nodes s' !! g = Some node'
    ∧ node' = set_queue [second] node
    ∧ objects.queue node' = [second]
    ∧ List.length (objects.queue node') = 1%nat
    ∧ sent_by ev s = [play_frame g second]
    ∧ count_op "play" (sent_by ev s) = 1%nat.
Proof.
  intros Hh Hnode Hq Hrep ev. eexists _, (set_queue [second] node). split.
  { by apply (callback_track_end_advance_run api s g h Hh node first second []). }
  unfold sent_by, ev.
  rewrite (callback_track_end_advance_run api s g h Hh node first second []
             reason Hnode Hq Hrep).
  cbn [snd wire _nodes]. rewrite drop_own_length, lookup_insert_eq.
  by split_and!.
Qed.

Lemma track_end_advances_two_track_queue_witness :
  let api := demo_track 0 in
  let a := demo_track 0 "QAAA" in
  let b := demo_track 1 "QBBB" in
  let s := demo_client [(1, demo_node 1 [a; b] false)] in
  sent_by (callback api (EventOp (Some "QAAA") 1 (TrackEnd "FINISHED"))) s
    = [play_frame 1 b].
Proof.
  intros api a b s.
  destruct (track_end_advances_two_track_queue api s 1 "QAAA"
              (demo_node 1 [a; b] false) a b "FINISHED")
    as (s' & node' & _ & _ & _ & _ & _ & Hsent & _);
    [done|by vm_compute|done|done|].
  exact Hsent.
Defined.

(** C3 as stated fails: a TrackEnd frame without a track handle is dropped
    before the registry is looked at; the two tracks stay queued and no
    frame is sent. *)
Lemma track_end_without_handle_keeps_queue :
  let api := demo_track 0 in
  let a := demo_track 0 "QAAA" in
  let b := demo_track 1 "QBBB" in
  let s := demo_client [(1, demo_node 1 [a; b] false)] in
  let ev := callback api (EventOp None 1 (TrackEnd "FINISHED")) in
  _nodes s !! 1 = Some (demo_node 1 [a; b] false)
  ∧ _nodes (ev s).2 !! 1 = Some (demo_node 1 [a; b] false)
  ∧ sent_by ev s = [].
Proof. by vm_compute. Qed.

(** ** Voice transport closed *)

(** C7 (as amended). For a WebSocketClosedEvent frame that carries a
    non-empty track handle, the handler returns normally and publishes one
    WebSocketClosedEvent with the frame's code, reason and byRemote; for
    every WebSocketClosedEvent frame, with a handle or without, the registry
    is left as it was, so a session present for the guild stays present,
    unmodified. *)
Theorem ws_closed_event_published_registry_kept
    (api : string → Track) (s : Client) (g : Z) (h : string)
    (code : Z) (reason : string) (byRemote : bool) :
  h ≠ "" →
  let ev := callback api (EventOp (Some h) g (WebSocketClosed code reason byRemote)) in
  (∃ s', ev s = (Returned tt, s')
    ∧ emitted_by ev s =
        [("WebSocketClosedEvent",
          WebSocketClosedEvent (decoded api s h) g code reason byRemote)]
    ∧ sent_by ev s = [])
  ∧ (∀ handle : option string,
       _nodes (callback api
                 (EventOp handle g (WebSocketClosed code reason byRemote)) s).2
       = _nodes s).
Proof.
  intros Hh ev. split.
  - eexists. split; [by apply callback_closed_run|].
    unfold emitted_by, sent_by, ev. rewrite callback_closed_run by done.
    cbn [snd wire emitted]. by rewrite drop_own_length, drop_all_own.
  - intros [h'|]; [|done].
    destruct (decide (h' = "")) as [->|Hh']; [done|].
    by rewrite callback_closed_run.
Qed.

Lemma ws_closed_event_published_registry_kept_witness :
  let api := demo_track 0 in
  let s := demo_client [(1, demo_node 1 [] false)] in
  _nodes (callback api (EventOp (Some "QAAA") 1
                          (WebSocketClosed 4006 "Session is no longer valid." true)) s).2
  = _nodes s.
Proof.
  intros api s.
  destruct (ws_closed_event_published_registry_kept api s 1 "QAAA" 4006
              "Session is no longer valid." true) as [_ Hkeep]; [done|].
  exact (Hkeep (Some "QAAA")).
Defined.

(** C7 as stated fails: a WebSocketClosedEvent frame with no track handle
    (code, reason and byRemote only) is dropped before the event type is
    looked at, and nothing is published. *)
Lemma ws_closed_without_handle_not_published :
  let api := demo_track 0 in
  let s := demo_client [(1, demo_node 1 [] false)] in
  let ev := callback api (EventOp None 1
                            (WebSocketClosed 4006 "Session is no longer valid." true)) in
  ev s = (Returned tt, s) ∧ emitted_by ev s = [].
Proof. by vm_compute. Qed.

(** ** Commands addressed to an unknown session *)

(** C4 (as amended). When the session id is absent from the registry,
    [play] (forced or not), [skip], [pause], [seek], [volume] with a volume
    in 0..1000, [filters], [shuffle] and [destroy] raise the "Node not found"
    [NodeError] and leave the client exactly as it was: no frame sent, no
    registry entry and no track touched.  [volume] with a volume outside
    0..1000 raises [VolumeError] instead, again with the client untouched. *)
Theorem absent_session_signals_not_found (s : Client) (g : Z) :
  _nodes s !! g = None →
  (∀ t r start, play g t r start s = (Raised (not_found g), s))
  ∧ skip g s = (Raised (not_found g), s)
  ∧ (∀ b, pause g b s = (Raised (not_found g), s))
  ∧ (∀ pos, seek g pos s = (Raised (not_found g), s))
  ∧ (∀ v, 0 ≤ v ≤ 1000 → volume g v s = (Raised (not_found g), s))
  ∧ (∀ v, v < 0 ∨ 1000 < v → volume g v s = (Raised (volume_error g), s))
  ∧ (∀ f, filters g f s = (Raised (not_found g), s))
  ∧ (∀ rng, shuffle rng g s = (Raised (not_found g), s))
  ∧ destroy g s = (Raised (not_found g), s).
Proof.
  intros Habsent. split_and!; intros.
  - by apply play_absent.
  - by apply skip_absent.
  - by apply pause_absent.
  - by apply seek_absent.
  - by apply volume_absent.
  - by apply volume_out_of_range.
  - by apply filters_absent.
  - by apply shuffle_absent.
  - by apply destroy_absent.
Qed.

Lemma absent_session_signals_not_found_witness :
  destroy 7 new_client = (Raised (not_found 7), new_client).
Proof.
  destruct (absent_session_signals_not_found new_client 7)
    as (_ & _ & _ & _ & _ & _ & _ & _ & Hdestroy); [done|].
  exact Hdestroy.
Defined.

(** C4 as stated fails: on a registry without guild 7, [stop] and [repeat]
    read an attribute of the missing node and raise [AttributeError], and
    [volume] with 1001 raises [VolumeError]; none signals "Node not found". *)
Lemma absent_session_other_failures :
  _nodes new_client !! 7 = None
  ∧ stop 7 new_client = (Raised AttributeError, new_client)
  ∧ repeat 7 true new_client = (Raised AttributeError, new_client)
  ∧ volume 7 1001 new_client = (Raised (volume_error 7), new_client).
Proof. by vm_compute. Qed.

(** ** Volume *)

(** C5. For every session id, present or not, [volume] with a value below 0
    or above 1000 (so -1 and 1001) raises [VolumeError] before the registry
    is consulted and leaves the client as it was: no frame sent, nothing
    mutated.  For an existing session and a value in 0..1000 (so 0 and 1000)
    it returns normally, stores the node with the new volume under the
    guild id, and sends exactly one frame, the volume frame. *)
Theorem volume_validates_then_sets (s : Client) (g : Z) :
  (∀ v, v < 0 ∨ 1000 < v →
     volume g v s = (Raised (volume_error g), s)
     ∧ sent_by (volume g v) s = [])
  ∧ volume g (-1) s = (Raised (volume_error g), s)
  ∧ volume g 1001 s = (Raised (volume_error g), s)
  ∧ (∀ node v, _nodes s !! g = Some node → 0 ≤ v ≤ 1000 →
       ∃ s', volume g v s = (Returned tt, s')
         ∧ _nodes s' = <[g := set_volume v node]> (_nodes s)
         ∧ (∃ node', _nodes s' !! g = Some node' ∧ objects.volume node' = v)
         ∧ sent_by (volume g v) s = [volume_frame g v]
         ∧ count_op "volume" (sent_by (volume g v) s) = 1%nat).
Proof.
  split_and!.
  - intros v Hv. unfold sent_by. rewrite volume_out_of_range by done.
    split; [done|]. apply drop_all_own.
  - apply volume_out_of_range. lia.
  - apply volume_out_of_range. lia.
  - intros node v Hnode Hv. eexists. split; [by apply volume_run|].
    unfold sent_by. rewrite (volume_run s g node Hnode v Hv).
    cbn [snd wire _nodes]. rewrite drop_own_length.
    split_and!; try done.
    exists (set_volume v node). by rewrite lookup_insert_eq.
Qed.

Lemma volume_validates_then_sets_witness :
  let s := demo_client [(1, demo_node 1 [] false)] in
  (∃ s', volume 1 0 s = (Returned tt, s')
     ∧ sent_by (volume 1 0) s = [volume_frame 1 0])
  ∧ (∃ s', volume 1 1000 s = (Returned tt, s')
     ∧ sent_by (volume 1 1000) s = [volume_frame 1 1000])
  ∧ sent_by (volume 1 1001) s = []
  ∧ sent_by (volume 1 (-1)) s = [].
Proof.
  intros s.
  destruct (volume_validates_then_sets s 1) as (Hout & _ & _ & Hin).
  split_and!.
  - destruct (Hin (demo_node 1 [] false) 0) as (s' & Hrun & _ & _ & Hsent & _);
      [by vm_compute|lia|]. by exists s'.
  - destruct (Hin (demo_node 1 [] false) 1000) as (s' & Hrun & _ & _ & Hsent & _);
      [by vm_compute|lia|]. by exists s'.
  - apply (Hout 1001). lia.
  - apply (Hout (-1)). lia.
Defined.

(** ** Stop *)

(** C6. For an existing session: [stop] on an empty queue raises the
    "Node not found" [NodeError] and leaves the client as it was, sending
    no frame; [stop] on a non-empty queue returns the node, stores it with
    an empty queue under the guild id, and sends exactly one frame, the stop
    frame. *)
Theorem stop_requires_nonempty_queue (s : Client) (g : Z) (node : Node) :
  _nodes s !! g = Some node →
  (objects.queue node = [] →
     stop g s = (Raised (not_found g), s) ∧ sent_by (stop g) s = [])
  ∧ (objects.queue node ≠ [] →
     ∃ s', stop g s = (Returned (set_queue [] node), s')
       ∧ _nodes s' = <[g := set_queue [] node]> (_nodes s)
       ∧ (∃ node', _nodes s' !! g = Some node' ∧ objects.queue node' = [])
       ∧ sent_by (stop g) s = [stop_frame g]
       ∧ count_op "stop" (sent_by (stop g) s) = 1%nat).
Proof.
  intros Hnode. split; intros Hq.
  - unfold sent_by. rewrite (stop_empty_run s g node Hnode Hq).
    split; [done|]. apply drop_all_own.
  - eexists. split; [by apply stop_run|].
    unfold sent_by. rewrite (stop_run s g node Hnode Hq).
    cbn [snd wire _nodes]. rewrite drop_own_length.
    split_and!; try done.
    exists (set_queue [] node). by rewrite lookup_insert_eq.
Qed.

Lemma stop_requires_nonempty_queue_witness :
  let s := demo_client [(1, demo_node 1 [demo_track 0 "QAAA"] false);
                        (2, demo_node 2 [] false)] in
  sent_by (stop 1) s = [stop_frame 1]
  ∧ stop 2 s = (Raised (not_found 2), s).
Proof.
  intros s. split.
  - destruct (stop_requires_nonempty_queue s 1
                (demo_node 1 [demo_track 0 "QAAA"] false)) as [_ Hfull];
      [by vm_compute|].
    destruct Hfull as (s' & _ & _ & _ & Hsent & _); [done|]. exact Hsent.
  - destruct (stop_requires_nonempty_queue s 2 (demo_node 2 [] false))
      as [Hempty _]; [by vm_compute|].
    by destruct Hempty as [Hrun _].
Defined.

(** ** Binding the voice session *)

(** C8 (as amended). In a state whose nodes sit under their own guild ids,
    as every state the client reaches does ([reachable_keyed]),
    [voice_update] behaves as follows.  With no channel id (or the id 0,
    which Python's [not] treats alike) and the session present, the session
    is removed from the registry and the only frame sent is a destroy frame,
    so no voiceUpdate frame; with the session absent, the call raises the
    "Node not found" [NodeError] and leaves the client as it was.  With a
    non-zero channel id it returns normally, sends exactly one frame, the
    voiceUpdate frame, whose endpoint is the given one with every "wss://"
    removed (which strips the scheme prefix of an endpoint "wss://host"),
    and afterwards the registry holds a fresh node for the guild with
    [is_connected] set. *)
Theorem voice_update_destroys_or_binds
    (rd : bool) (s : Client) (g : Z) (session_id token endpoint : string) :
  nodes_keyed s →
  (∀ ch node, falsy_id ch = true → _nodes s !! g = Some node →
     ∃ s', voice_update rd g session_id token endpoint ch s = (Returned tt, s')
       ∧ _nodes s' = delete g (_nodes s)
       ∧ _nodes s' !! g = None
       ∧ sent_by (voice_update rd g session_id token endpoint ch) s
           = [destroy_frame g]
       ∧ count_op "voiceUpdate"
           (sent_by (voice_update rd g session_id token endpoint ch) s) = 0%nat)
  ∧ (∀ ch, falsy_id ch = true → _nodes s !! g = None →
       voice_update rd g session_id token endpoint ch s
         = (Raised (not_found g), s)
       ∧ sent_by (voice_update rd g session_id token endpoint ch) s = [])
  ∧ (∀ c, c ≠ 0 →
       ∃ s' node',
         voice_update rd g session_id token endpoint (Some c) s = (Returned tt, s')
         ∧ sent_by (voice_update rd g session_id token endpoint (Some c)) s
             = [voiceUpdate_frame g session_id token (replace endpoint "wss://" "")]
         ∧ count_op "voiceUpdate"
             (sent_by (voice_update rd g session_id token endpoint (Some c)) s)
             = 1%nat
         ∧ _nodes s' !! g = Some node'
         ∧ node' = mkNode g [] 100 rd true
         ∧ is_connected node' = true)
  ∧ (∀ host, endpoint = String.append "wss://" host →
       occurs "wss://" host = false →
       replace endpoint "wss://" "" = host
       ∧ replace endpoint "wss://" "" = removeprefix endpoint "wss://").
Proof.
  intros Hk. split_and!.
  - intros ch node Hch Hnode.
    assert (Hg : objects.guild_id node = g) by by apply Hk.
    unfold sent_by. rewrite voice_update_falsy by done.
    rewrite (destroy_run s g node Hnode Hg). eexists. split; [done|].
    cbn [snd wire _nodes]. rewrite drop_own_length, lookup_delete_eq.
    by split_and!.
  - intros ch Hch Habsent.
    unfold sent_by. rewrite voice_update_falsy, destroy_absent by done.
    split; [done|]. apply drop_all_own.
  - intros c Hc. unfold sent_by. rewrite voice_update_run by done.
    eexists _, (mkNode g [] 100 rd true). split; [done|].
    cbn [snd wire _nodes]. rewrite drop_own_length, lookup_insert_eq.
    by split_and!.
  - intros host -> Ho. rewrite removeprefix_wss.
    split; by apply replace_strips_wss.
Qed.

Lemma voice_update_destroys_or_binds_witness :
  sent_by (voice_update false 1 "sess" "tok" "wss://eu.example:443" (Some 55))
    new_client
  = [voiceUpdate_frame 1 "sess" "tok" "eu.example:443"].
Proof.
  destruct (voice_update_destroys_or_binds false new_client 1 "sess" "tok"
              "wss://eu.example:443" new_client_keyed)
    as (_ & _ & Hbind & Hstrip).
  destruct (Hbind 55) as (s' & node' & _ & Hsent & _); [done|].
  rewrite Hsent. f_equal.
Defined.

(** C8 as stated fails: with no channel id and the session absent the call
    is not a silent no-op, it raises the "Node not found" [NodeError]; the
    channel id 0, though present, takes the destroy path: the session is
    removed and no voiceUpdate frame is sent; and an endpoint with "wss://"
    past its start loses that too, which stripping a prefix would keep. *)
Lemma voice_update_absent_raises_zero_destroys :
  let s := demo_client [(1, demo_node 1 [] false)] in
  voice_update false 7 "sess" "tok" "wss://eu.example:443" None new_client
    = (Raised (not_found 7), new_client)
  ∧ _nodes s !! 1 = Some (demo_node 1 [] false)
  ∧ _nodes (voice_update false 1 "sess" "tok" "wss://eu.example:443" (Some 0) s).2
      !! 1 = None
  ∧ count_op "voiceUpdate"
      (sent_by (voice_update false 1 "sess" "tok" "wss://eu.example:443" (Some 0)) s)
    = 0%nat
  ∧ sent_by (voice_update false 1 "sess" "tok" "eu.wss://example:443" (Some 55)) s
    = [voiceUpdate_frame 1 "sess" "tok" "eu.example:443"]
  ∧ removeprefix "eu.wss://example:443" "wss://" = "eu.wss://example:443".
Proof. by vm_compute. Qed.

(** ** Shuffle *)

(** C9. For an existing session with a non-empty queue, whatever the random
    generator draws, [shuffle] returns the node it stored under the guild
    id; in that node the element at index 0 is the original one, the
    elements after it are a permutation of the original elements after
    index 0, the length is unchanged and the other fields are the old ones;
    no frame is sent.  For an existing session with an empty queue [shuffle]
    returns the empty list and leaves the client as it was. *)
Theorem shuffle_keeps_head_permutes_rest
    (rng : nat → nat) (s : Client) (g : Z) (node : Node) :
  _nodes s !! g = Some node →
  (objects.queue node ≠ [] →
     ∃ s' node',
       shuffle rng g s = (Returned (TheNode node'), s')
       ∧ _nodes s' = <[g := node']> (_nodes s)
       ∧ node' = set_queue (objects.queue node') node
       ∧ objects.queue node' !! 0%nat = objects.queue node !! 0%nat
       ∧ drop 1 (objects.queue node') ≡ₚ drop 1 (objects.queue node)
       ∧ List.length (objects.queue node') = List.length (objects.queue node)
       ∧ sent_by (shuffle rng g) s = [])
  ∧ (objects.queue node = [] → shuffle rng g s = (Returned EmptyList, s)).
Proof.
  intros Hnode. split; intros Hq; [|by apply (shuffle_empty_run s g node)].
  destruct (objects.queue node) as [|np rest] eqn:Hqueue; [done|].
  pose proof (sample_Permutation rng rest) as Hperm.
  eexists _, (set_queue (np :: sample rng rest (List.length rest)) node).
  split; [by apply shuffle_run|].
  unfold sent_by. rewrite (shuffle_run s g node Hnode rng np rest Hqueue).
  cbn [snd wire _nodes set_queue objects.queue drop].
  rewrite drop_all_own. split_and!; try done.
  cbn. f_equal. by apply Permutation_length.
Qed.

Lemma shuffle_keeps_head_permutes_rest_witness :
  let a := demo_track 0 "QAAA" in
  let b := demo_track 1 "QBBB" in
  let c := demo_track 2 "QCCC" in
  let s := demo_client [(1, demo_node 1 [a; b; c] false)] in
  ∃ s' node',
    shuffle (λ i, S i) 1 s = (Returned (TheNode node'), s')
    ∧ objects.queue node' !! 0%nat = Some a.
Proof.
  intros a b c s.
  destruct (shuffle_keeps_head_permutes_rest (λ i, S i) s 1
              (demo_node 1 [a; b; c] false)) as [Hfull _]; [by vm_compute|].
  destruct Hfull as (s' & node' & Hrun & _ & _ & Hhead & _); [done|].
  by exists s', node'.
Defined.

(** ** Other guilds *)

(** C10 (as amended). In a state whose nodes sit under their own guild
    ids, as every state the client reaches does ([reachable_keyed]), let a
    command ([play], [stop], [skip], [pause], [seek], [volume],
    [repeat], [filters], [shuffle], [destroy], [voice_update]) be addressed
    to guild [g]; whether it returns or raises, for every other guild [g']
    the registry entry is the same afterwards: same presence and the same
    node, that is the same sequence of track objects in the queue, the same
    volume, repeat and connected fields.  The [requester] attribute of a
    track object is unchanged too, unless it is the object handed to a
    non-forced [play]; for every command other than a non-forced [play]
    the requesters read through the queue of [g'] are therefore unchanged
    as well.  The nodes still sit under their own guild ids afterwards. *)
Theorem commands_leave_other_guilds
    (rd : bool) (c : Command) (s : Client) (g' : Z) :
  nodes_keyed s →
  g' ≠ target c →
  let s' := state_after rd c s in
  _nodes s' !! g' = _nodes s !! g'
  ∧ (∀ t', (∀ t, assigns_requester c = Some t → oid t ≠ oid t') →
       requester_of s' t' = requester_of s t')
  ∧ (assigns_requester c = None → queue_requesters s' g' = queue_requesters s g')
  ∧ nodes_keyed s'.
Proof.
  intros Hk Hne s'. subst s'.
  assert (Hnodes : _nodes (state_after rd c s) !! g' = _nodes s !! g').
  { destruct (state_after_cases rd c s)
      as [[->|[(n0 & n' & Hn0 & Hid & ->)|[(n0 & Hn0 & ->)|(n' & Hid & ->)]]] _].
    - done.
    - by rewrite lookup_insert_ne.
    - rewrite (Hk _ _ Hn0). by rewrite lookup_delete_ne.
    - by rewrite lookup_insert_ne. }
  assert (Hreq : ∀ t', (∀ t, assigns_requester c = Some t → oid t ≠ oid t') →
                       requester_of (state_after rd c s) t' = requester_of s t').
  { intros t' Ht'. unfold requester_of.
    destruct (state_after_cases rd c s) as [_ [->|(t & r & Ht & ->)]]; [done|].
    by rewrite lookup_insert_ne by by apply Ht'. }
  split_and!; [done|done| |by apply state_after_keyed].
  intros Hnone. unfold queue_requesters. rewrite Hnodes.
  destruct (_nodes s !! g') as [n|]; [|done]. cbn. f_equal.
  apply list_fmap_ext. intros i t' _. apply Hreq. intros t Ht. congruence.
Qed.

Lemma commands_leave_other_guilds_witness :
  let s := demo_client [(1, demo_node 1 [demo_track 0 "QAAA"] false);
                        (2, demo_node 2 [demo_track 1 "QBBB"] false)] in
  _nodes (state_after false (Destroy 2) s) !! 1 = _nodes s !! 1.
Proof.
  intros s.
  assert (Hk : nodes_keyed s).
  { intros g n. unfold s, demo_client. cbn [_nodes list_to_map foldr].
    rewrite !lookup_insert, lookup_empty.
    repeat case_decide; intros [= <-] || done; by subst. }
  by destruct (commands_leave_other_guilds false (Destroy 2) s 1 Hk) as [H _].
Defined.

(** C10 as stated fails: a track object is shared between the queues it
    was put in.  After both guilds are bound and one track object is queued
    in guild 1 for requester 5, queueing the same object in guild 2 for
    requester 7 changes what the queue of guild 1 shows: its one track now
    has requester 7. *)
Lemma play_shared_track_changes_other_queue :
  let t := demo_track 0 "QAAA" in
  let s := run_commands false
             [VoiceUpdate 1 "sess" "tok" "wss://eu.example:443" (Some 55);
              VoiceUpdate 2 "sess" "tok" "wss://eu.example:443" (Some 56);
              Play 1 t (Some 5) false] new_client in
  let s' := state_after false (Play 2 t (Some 7) false) s in
  queue_requesters s 1 = Some [Some 5]
  ∧ queue_requesters s' 1 = Some [Some 7]
  ∧ queue_requesters s' 1 ≠ queue_requesters s 1.
Proof. by vm_compute. Qed.

(** ** The protocol handler on arbitrary frames *)

Lemma callback_event_run (api : string → Track) (s : Client) (g : Z) (h : string)
    (name : string) (ev : Event) (body : EventBody) :
  h ≠ "" →
  (body = TrackStart ∧ name = "TrackStartEvent"
     ∧ ev = TrackStartEvent (decoded api s h) g)
  ∨ (∃ e m sv c, body = TrackException e m sv c ∧ name = "TrackExceptionEvent"
       ∧ ev = TrackExceptionEvent (decoded api s h) g e m sv c)
  ∨ (∃ ms, body = TrackStuck ms ∧ name = "TrackStuckEvent"
       ∧ ev = TrackStuckEvent (decoded api s h) g ms) →
  callback api (EventOp (Some h) g body) s =
    (Returned tt,
     mkClient (_nodes s) (requesters s) (S (next_oid s)) (info s) (wire s)
       (emitted s ++ [(name, ev)])).
Proof.
  intros Hh [(-> & -> & ->)|[(e & m & sv & c & -> & -> & ->)|(ms & -> & -> & ->)]];
    unfold callback; rewrite falsy_str_handle by done;
    unfold _decodetrack; run; reflexivity.
Qed.

Lemma callback_track_end_idle_run (api : string → Track) (s : Client) (g : Z)
    (h reason : string) :
  h ≠ "" →
  (_nodes s !! g = None ∨ ∃ n, _nodes s !! g = Some n ∧ objects.queue n = []) →
  callback api (EventOp (Some h) g (TrackEnd reason)) s =
    (Returned tt,
     mkClient (_nodes s) (requesters s) (S (next_oid s)) (info s) (wire s)
       (emitted s ++ [("TrackEndEvent", TrackEndEvent (decoded api s h) g reason)])).
Proof.
  intros Hh Hidle. unfold callback. rewrite falsy_str_handle by done.
  unfold _decodetrack. run.
  destruct Hidle as [->|(n & -> & ->)]; reflexivity.
Qed.

Lemma callback_track_end_last_run (api : string → Track) (s : Client) (g : Z)
    (h reason : string) (n : Node) (head : Track) :
  h ≠ "" →
  _nodes s !! g = Some n →
  objects.queue n = [head] →
  objects.repeat n = false →
  callback api (EventOp (Some h) g (TrackEnd reason)) s =
    (Returned tt,
     mkClient (<[g := set_queue [] n]> (_nodes s)) (requesters s)
       (S (next_oid s)) (info s) (wire s)
       (emitted s ++ [("TrackEndEvent", TrackEndEvent (decoded api s h) g reason)])).
Proof.
  intros Hh Hn Hq Hrep. unfold callback. rewrite falsy_str_handle by done.
  unfold _decodetrack. run. rewrite Hn, Hq, Hrep. run.
  unfold set_queue. by rewrite Hrep.
Qed.

(** Every frame falls in one of five cases. *)
Lemma callback_cases (api : string → Track) (pyload : Payload) (s : Client) :
  let r := callback api pyload s in
  r.1 = Returned tt
  ∧ requesters r.2 = requesters s
  ∧ ((_nodes r.2 = _nodes s ∧ wire r.2 = wire s)
     ∨ (∃ g h n head rest reason,
          pyload = EventOp (Some h) g (TrackEnd reason) ∧ h ≠ ""
          ∧ _nodes s !! g = Some n ∧ objects.queue n = head :: rest
          ∧ ((objects.repeat n = true ∧ _nodes r.2 = _nodes s
              ∧ wire r.2 = wire s ++ [play_frame g (decoded api s h)])
             ∨ (objects.repeat n = false
                ∧ _nodes r.2 = <[g := set_queue rest n]> (_nodes s)
                ∧ wire r.2 = wire s ++ (play_frame g <$> take 1 rest))))).
Proof.
  destruct pyload as [? ? ? ? ?|? ? ? ?|[h|] g body|?];
    try (split_and!; [done|done|by left]).
  destruct (decide (h = "")) as [->|Hh]; [split_and!; [done|done|by left]|].
  destruct body as [|reason|e m sv c|ms|? ? ?|?].
  - erewrite callback_event_run; [|done|left; done]. split_and!; [done|done|by left].
  - destruct (_nodes s !! g) as [n|] eqn:Hn.
    + destruct (objects.queue n) as [|head rest] eqn:Hq.
      * rewrite callback_track_end_idle_run by eauto.
        split_and!; [done|done|by left].
      * destruct (objects.repeat n) eqn:Hrep.
        -- cbn zeta.
           rewrite (callback_track_end_repeat_run api s g h Hh n head rest reason Hn Hq Hrep).
           split_and!; [done|done|]. right.
           exists g, h, n, head, rest, reason. split_and!; try done. by left.
        -- destruct rest as [|next rest].
           ++ cbn zeta.
              rewrite (callback_track_end_last_run api s g h reason n head Hh Hn Hq Hrep).
              split_and!; [done|done|]. right.
              exists g, h, n, head, [], reason. split_and!; try done. right.
              cbn. by rewrite app_nil_r.
           ++ cbn zeta.
              rewrite (callback_track_end_advance_run api s g h Hh n head next rest reason Hn Hq Hrep).
              split_and!; [done|done|]. right.
              exists g, h, n, head, (next :: rest), reason.
              split_and!; try done. by right.
    + rewrite callback_track_end_idle_run by eauto.
      split_and!; [done|done|by left].
  - erewrite callback_event_run; [|done|right; left; by do 4 eexists].
    split_and!; [done|done|by left].
  - erewrite callback_event_run; [|done|right; right; by eexists].
    split_and!; [done|done|by left].
  - rewrite callback_closed_run by done. split_and!; [done|done|by left].
  - unfold callback. rewrite falsy_str_handle by done. unfold _decodetrack. run.
    split_and!; [done|done|by left].
Qed.

(** X1. Whatever frame arrives and whatever the registry holds, [callback]
    returns normally: the forced [play] of the track-end path never meets a
    missing session, and no other branch can raise. *)
Theorem callback_never_raises (api : string → Track) (pyload : Payload) (s : Client) :
  (callback api pyload s).1 = Returned tt.
Proof. by destruct (callback_cases api pyload s) as [H _]. Qed.

(** X2. Only a TrackEnd event frame can change the registry or put a frame
    on the socket: for every other frame ([stats], [playerUpdate], the other
    event types, unknown ops) the registry, the socket and every track's
    requester are left as they were. *)
Theorem only_track_end_touches_registry_or_socket
    (api : string → Track) (pyload : Payload) (s : Client) :
  (∀ h g reason, pyload ≠ EventOp h g (TrackEnd reason)) →
  _nodes (callback api pyload s).2 = _nodes s
  ∧ wire (callback api pyload s).2 = wire s
  ∧ requesters (callback api pyload s).2 = requesters s.
Proof.
  intros Hno.
  destruct (callback_cases api pyload s)
    as (_ & Hreq & [[Hn Hw]|(g & h & n & head & rest & reason & -> & _)]).
  - done.
  - by destruct (Hno (Some h) g reason).
Qed.

Lemma only_track_end_touches_registry_or_socket_witness :
  let s := demo_client [(1, demo_node 1 [demo_track 0 "QAAA"] false)] in
  _nodes (callback (demo_track 0)
            (EventOp (Some "QAAA") 1 (TrackStuck 5000)) s).2 = _nodes s.
Proof.
  intros s.
  by destruct (only_track_end_touches_registry_or_socket (demo_track 0)
                 (EventOp (Some "QAAA") 1 (TrackStuck 5000)) s) as [H _].
Defined.

(** X3. [callback] never creates or removes a session and never changes a
    session's guild id, volume, repeat flag or connected flag; a queue is
    either kept or loses exactly its head. *)
Theorem callback_keeps_sessions_drops_at_most_head
    (api : string → Track) (pyload : Payload) (s : Client) (g : Z) :
  match _nodes s !! g, _nodes (callback api pyload s).2 !! g with
  | None, None => True
  | Some n, Some n' =>
      n' = set_queue (objects.queue n') n
      ∧ (objects.queue n' = objects.queue n
         ∨ objects.queue n' = drop 1 (objects.queue n))
  | _, _ => False
  end.
Proof.
  assert (Hsame : ∀ n : Node, n = set_queue (objects.queue n) n) by by intros [].
  destruct (callback_cases api pyload s)
    as (_ & _ & [[-> _]|(g0 & h & n & head & rest & reason & _ & _ & Hn & Hq & Hcase)]).
  - destruct (_nodes s !! g) as [n|]; [|done]. split; [apply Hsame|by left].
  - destruct Hcase as [(_ & -> & _)|(_ & -> & _)].
    + destruct (_nodes s !! g) as [n0|]; [|done]. split; [apply Hsame|by left].
    + rewrite lookup_insert. case_decide as Hg.
      * subst g0. rewrite Hn. cbn. split; [done|]. right. by rewrite Hq.
      * destruct (_nodes s !! g) as [n0|]; [|done]. split; [apply Hsame|by left].
Qed.

(** X4. Handling one frame sends at most one frame, and what it sends is a
    play frame for the guild the frame names. *)
Theorem callback_sends_at_most_one_play
    (api : string → Track) (pyload : Payload) (s : Client) :
  sent_by (callback api pyload) s = []
  ∨ ∃ h g body handle,
      pyload = EventOp h g body
      ∧ sent_by (callback api pyload) s = [play_frame_of g handle].
Proof.
  unfold sent_by.
  destruct (callback_cases api pyload s)
    as (_ & _ & [[_ ->]|(g & h & n & head & rest & reason & -> & _ & _ & _ & Hcase)]).
  - left. apply drop_all_own.
  - destruct Hcase as [(_ & _ & ->)|(_ & _ & ->)]; rewrite drop_own_length.
    + right. by exists (Some h), g, (TrackEnd reason), h.
    + destruct rest as [|next rest]; [by left|].
      right. by exists (Some h), g, (TrackEnd reason), (objects.track next).
Qed.

(** X5. A TrackEnd frame with nothing to advance to only publishes the
    event: when the session is unknown or its queue is empty the registry is
    untouched, and when the ended track was the last one queued (repeat
    unset) the queue becomes empty; in all three cases nothing is sent. *)
Theorem track_end_with_nothing_next_sends_nothing
    (api : string → Track) (s : Client) (g : Z) (h reason : string) :
  h ≠ "" →
  let ev := callback api (EventOp (Some h) g (TrackEnd reason)) in
  (_nodes s !! g = None → _nodes (ev s).2 = _nodes s ∧ sent_by ev s = [])
  ∧ (∀ n, _nodes s !! g = Some n → objects.queue n = [] →
       _nodes (ev s).2 = _nodes s ∧ sent_by ev s = [])
  ∧ (∀ n head, _nodes s !! g = Some n → objects.queue n = [head] →
       objects.repeat n = false →
       node_after ev s g = Some (set_queue [] n) ∧ sent_by ev s = [])
  ∧ emitted_by ev s = [("TrackEndEvent", TrackEndEvent (decoded api s h) g reason)].
Proof.
  intros Hh ev. unfold sent_by, emitted_by, node_after, ev. split_and!.
  - intros Hn. rewrite callback_track_end_idle_run by eauto.
    split; [done|apply drop_all_own].
  - intros n Hn Hq. rewrite callback_track_end_idle_run by eauto.
    split; [done|apply drop_all_own].
  - intros n head Hn Hq Hrep.
    rewrite (callback_track_end_last_run api s g h reason n head) by done.
    cbn. rewrite lookup_insert_eq. split; [done|apply drop_all_own].
  - destruct (_nodes s !! g) as [n|] eqn:Hn.
    + destruct (objects.queue n) as [|head rest] eqn:Hq.
      * rewrite callback_track_end_idle_run by eauto. cbn. apply drop_own_length.
      * destruct (objects.repeat n) eqn:Hrep.
        -- rewrite (callback_track_end_repeat_run api s g h Hh n head rest reason) by done.
           cbn. apply drop_own_length.
        -- destruct rest as [|next rest].
           ++ rewrite (callback_track_end_last_run api s g h reason n head) by done.
              cbn. apply drop_own_length.
           ++ rewrite (callback_track_end_advance_run api s g h Hh n head next rest reason) by done.
              cbn. apply drop_own_length.
    + rewrite callback_track_end_idle_run by eauto. cbn. apply drop_own_length.
Qed.

Lemma track_end_with_nothing_next_sends_nothing_witness :
  let s := demo_client [(1, demo_node 1 [demo_track 0 "QAAA"] false)] in
  let ev := callback (demo_track 0) (EventOp (Some "QAAA") 1 (TrackEnd "FINISHED")) in
  node_after ev s 1 = Some (demo_node 1 [] false) ∧ sent_by ev s = [].
Proof.
  intros s ev.
  destruct (track_end_with_nothing_next_sends_nothing (demo_track 0) s 1
              "QAAA" "FINISHED") as (_ & _ & Hlast & _); [done|].
  apply (Hlast (demo_node 1 [demo_track 0 "QAAA"] false) (demo_track 0 "QAAA"));
    by vm_compute.
Defined.

(** ** The receive loop *)

Lemma set_queue_own (n : Node) : set_queue (objects.queue n) n = n.
Proof. by destruct n. Qed.

Lemma _connect_returns (api : string → Track) (msgs : list WSMsg) (s : Client) :
  (_connect api msgs s).1 = Returned tt.
Proof.
  revert s. induction msgs as [|[json| |data|] msgs IH]; intros s; cbn; try done.
  run. destruct (callback_cases api json s) as [Hret _].
  destruct (callback api json s) as [[[]|e] s1]; [apply IH|done].
Qed.

Lemma _connect_text (api : string → Track) (json : Payload) (msgs : list WSMsg)
    (s : Client) :
  _connect api (TEXT json :: msgs) s = _connect api msgs (callback api json s).2.
Proof.
  cbn. run. destruct (callback_cases api json s) as [Hret _].
  by destruct (callback api json s) as [[[]|e] s1].
Qed.

Lemma _connect_app (api : string → Track) (a b : list WSMsg) (s : Client) :
  Forall (λ m, closing m = false) a →
  _connect api (a ++ b) s = _connect api b (_connect api a s).2.
Proof.
  intros Ha. revert s. induction Ha as [|m a Hm _ IH]; intros s; [done|].
  destruct m as [json| |data|]; try done.
  - rewrite <- app_comm_cons, !_connect_text. apply IH.
  - cbn. apply IH.
Qed.

(** X6. The receive loop never raises, and it ends at the first closed or
    error message: the messages before it are handled in order, the
    messages after it are never handled. *)
Theorem _connect_stops_at_close_or_error
    (api : string → Track) (before after : list WSMsg) (m : WSMsg) (s : Client) :
  Forall (λ m, closing m = false) before →
  closing m = true →
  _connect api (before ++ m :: after) s = _connect api before s
  ∧ (_connect api (before ++ m :: after) s).1 = Returned tt
  ∧ ∀ more, _connect api (before ++ more) s
            = _connect api more (_connect api before s).2.
Proof.
  intros Hb Hm. split_and!.
  - rewrite _connect_app by done.
    pose proof (_connect_returns api before s) as Hret.
    destruct (_connect api before s) as [r s1]. cbn in *. subst r.
    by destruct m.
  - apply _connect_returns.
  - intros more. by apply _connect_app.
Qed.

Lemma _connect_stops_at_close_or_error_witness :
  let s := demo_client [(1, demo_node 1 [demo_track 0 "QAAA"; demo_track 1 "QBBB"] false)] in
  let ended := TEXT (EventOp (Some "QAAA") 1 (TrackEnd "FINISHED")) in
  _connect (demo_track 0) ([ended] ++ CLOSED :: [ended]) s
  = _connect (demo_track 0) [ended] s.
Proof.
  intros s ended.
  destruct (_connect_stops_at_close_or_error (demo_track 0) [ended] [ended]
              CLOSED s) as [H _]; [|done|exact H].
  by repeat constructor.
Defined.

(** ** Draining and repeating a queue *)

Lemma track_end_step (api : string → Track) (s : Client) (g : Z) (h reason : string)
    (n : Node) :
  h ≠ "" →
  _nodes s !! g = Some n →
  objects.repeat n = false →
  let s1 := (callback api (EventOp (Some h) g (TrackEnd reason)) s).2 in
  _nodes s1 !! g = Some (set_queue (drop 1 (objects.queue n)) n)
  ∧ (∀ g', g' ≠ g → _nodes s1 !! g' = _nodes s !! g')
  ∧ wire s1 = wire s ++ (play_frame g <$> take 1 (drop 1 (objects.queue n)))
  ∧ requesters s1 = requesters s.
Proof.
  intros Hh Hn Hrep.
  destruct (objects.queue n) as [|head [|next rest]] eqn:Hq; cbn zeta.
  - rewrite callback_track_end_idle_run by eauto. cbn.
    rewrite Hn, app_nil_r, <- Hq, set_queue_own. done.
  - rewrite (callback_track_end_last_run api s g h reason n head) by done. cbn.
    rewrite lookup_insert_eq, app_nil_r. split_and!; try done.
    intros g' Hg'. by rewrite lookup_insert_ne.
  - rewrite (callback_track_end_advance_run api s g h Hh n head next rest reason) by done.
    cbn. rewrite lookup_insert_eq. split_and!; try done.
    intros g' Hg'. by rewrite lookup_insert_ne.
Qed.

Lemma take_1_drop_1 {A} (k : nat) (l : list A) :
  take 1 l ++ take k (drop 1 l) = take (S k) l.
Proof. destruct l; [by destruct k|done]. Qed.

(** X7. With repeat unset, a run of TrackEnd frames for a guild walks down
    its queue: after [k] frames the first [k] tracks are gone, and the
    frames sent are the play frames of the tracks that became head, in queue
    order; once the queue is empty further TrackEnd frames send nothing.
    Other guilds are not touched. *)
Theorem track_ends_drain_queue_in_order
    (api : string → Track) (evs : list (string * string)) (s : Client)
    (g : Z) (n : Node) :
  Forall (λ ev, ev.1 ≠ "") evs →
  _nodes s !! g = Some n →
  objects.repeat n = false →
  let s' := (_connect api (track_end_msgs g evs) s).2 in
  _nodes s' !! g = Some (set_queue (drop (List.length evs) (objects.queue n)) n)
  ∧ (∀ g', g' ≠ g → _nodes s' !! g' = _nodes s !! g')
  ∧ wire s' = wire s
              ++ (play_frame g <$> take (List.length evs) (drop 1 (objects.queue n))).
Proof.
  intros Hevs. revert s n.
  induction Hevs as [|[h reason] evs Hh _ IH]; intros s n Hn Hrep; cbn zeta.
  - split_and!; [|done|cbn; by rewrite app_nil_r].
    change (_nodes s !! g = Some (set_queue (objects.queue n) n)).
    by rewrite set_queue_own.
  - cbn [track_end_msgs fmap list_fmap]. rewrite _connect_text. cbn [fst snd].
    destruct (track_end_step api s g h reason n Hh Hn Hrep)
      as (Hn1 & Hother1 & Hwire1 & _).
    specialize (IH _ _ Hn1 Hrep). cbn zeta in IH.
    destruct IH as (Hn2 & Hother2 & Hwire2).
    fold (track_end_msgs g evs). split_and!.
    + rewrite Hn2. cbn. by rewrite drop_drop.
    + intros g' Hg'. by rewrite Hother2, Hother1.
    + rewrite Hwire2, Hwire1. cbn [set_queue objects.queue List.length].
      rewrite <- app_assoc, <- fmap_app. do 2 f_equal.
      apply take_1_drop_1.
Qed.

Lemma track_ends_drain_queue_in_order_witness :
  let a := demo_track 0 "QAAA" in
  let b := demo_track 1 "QBBB" in
  let c := demo_track 2 "QCCC" in
  let s := demo_client [(1, demo_node 1 [a; b; c] false)] in
  wire (_connect (demo_track 0)
          (track_end_msgs 1 [("QAAA", "FINISHED"); ("QBBB", "FINISHED");
                             ("QCCC", "FINISHED"); ("QCCC", "FINISHED")]) s).2
  = wire s ++ [play_frame 1 b; play_frame 1 c].
Proof.
  intros a b c s.
  destruct (track_ends_drain_queue_in_order (demo_track 0)
              [("QAAA", "FINISHED"); ("QBBB", "FINISHED");
               ("QCCC", "FINISHED"); ("QCCC", "FINISHED")] s 1
              (demo_node 1 [a; b; c] false)) as (_ & _ & Hwire);
    [by repeat constructor|by vm_compute|done|exact Hwire].
Defined.

(** X8. With repeat set and a non-empty queue, every TrackEnd frame for
    the guild is answered by a play frame for the track that frame names,
    in order, and the registry never changes: the queue is not advanced. *)
Theorem track_ends_replay_while_repeat_set
    (api : string → Track) (evs : list (string * string)) (s : Client)
    (g : Z) (n : Node) :
  Forall (λ ev, ev.1 ≠ "") evs →
  _nodes s !! g = Some n →
  objects.repeat n = true →
  objects.queue n ≠ [] →
  let s' := (_connect api (track_end_msgs g evs) s).2 in
  _nodes s' = _nodes s
  ∧ wire s' = wire s ++ ((λ ev, play_frame_of g ev.1) <$> evs).
Proof.
  intros Hevs Hn Hrep Hq. revert s Hn.
  induction Hevs as [|[h reason] evs Hh _ IH]; intros s Hn; cbn zeta.
  - cbn. by rewrite app_nil_r.
  - cbn [track_end_msgs fmap list_fmap]. rewrite _connect_text. cbn [fst snd].
    destruct (objects.queue n) as [|head rest] eqn:Hqueue; [done|].
    rewrite (callback_track_end_repeat_run api s g h Hh n head rest reason Hn Hqueue Hrep).
    cbn [snd]. fold (track_end_msgs g evs).
    set (s1 := mkClient _ _ _ _ _ _).
    destruct (IH s1) as [Hn2 Hwire2]; [done|].
    rewrite Hn2, Hwire2. cbn. by rewrite <- app_assoc.
Qed.

Lemma track_ends_replay_while_repeat_set_witness :
  let s := demo_client [(1, demo_node 1 [demo_track 0 "QAAA"] true)] in
  wire (_connect (demo_track 0)
          (track_end_msgs 1 [("QAAA", "FINISHED"); ("QAAA", "FINISHED")]) s).2
  = wire s ++ [play_frame_of 1 "QAAA"; play_frame_of 1 "QAAA"].
Proof.
  intros s.
  destruct (track_ends_replay_while_repeat_set (demo_track 0)
              [("QAAA", "FINISHED"); ("QAAA", "FINISHED")] s 1
              (demo_node 1 [demo_track 0 "QAAA"] true)) as [_ Hwire];
    [by repeat constructor|by vm_compute|done|done|exact Hwire].
Defined.

(** ** Enqueueing a playlist *)

Lemma set_queue_set_queue (q q' : list Track) (n : Node) :
  set_queue q' (set_queue q n) = set_queue q' n.
Proof. reflexivity. Qed.

Lemma create_tasks_ready (g : Z) (r : option Z) (tracks : list Track) (l : Loop) :
  foldl (λ l track, create_task (play g track r false) l) l tracks
  = mkLoop (running l) (ready l ++ ((λ t, play g t r false) <$> tracks)).
Proof.
  revert l. induction tracks as [|t tracks IH]; intros l; cbn.
  - rewrite app_nil_r. by destruct l.
  - rewrite IH. cbn. by rewrite <- app_assoc.
Qed.

Lemma plays_in_order (g : Z) (r : option Z) (tracks : list Track) :
  ∀ (s : Client) (n : Node),
    _nodes s !! g = Some n →
    let s' := foldl (λ s task, (task s).2) s ((λ t, play g t r false) <$> tracks) in
    _nodes s' !! g = Some (set_queue (objects.queue n ++ tracks) n)
    ∧ (∀ g', g' ≠ g → _nodes s' !! g' = _nodes s !! g')
    ∧ wire s' = wire s ++ match objects.queue n with
                          | [] => play_frame g <$> take 1 tracks
                          | _ => []
                          end
    ∧ (∀ t, t ∈ tracks → requester_of s' t = r)
    ∧ (∀ t, (∀ t', t' ∈ tracks → oid t' ≠ oid t) →
            requester_of s' t = requester_of s t).
Proof.
  induction tracks as [|t tracks IH]; intros s n Hn; cbn zeta.
  - cbn. split_and!; try done.
    + by rewrite Hn, app_nil_r, set_queue_own.
    + destruct (objects.queue n); by rewrite app_nil_r.
    + by intros t ?%elem_of_nil.
  - cbn [fmap list_fmap foldl]. rewrite (play_queue_run s g n t r Hn). cbn [snd].
    set (s1 := mkClient _ _ _ _ _ _).
    assert (Hn1 : _nodes s1 !! g = Some (set_queue (objects.queue n ++ [t]) n))
      by apply lookup_insert_eq.
    destruct (IH s1 _ Hn1) as (Hn2 & Hother & Hwire & Hreq & Hkeep).
    split_and!.
    + rewrite Hn2. cbn. by rewrite <- app_assoc.
    + intros g' Hg'. rewrite Hother by done. by apply lookup_insert_ne.
    + rewrite Hwire. cbn [wire s1 set_queue objects.queue].
      destruct (objects.queue n) as [|a q]; cbn.
      * by rewrite app_nil_r.
      * destruct (q ++ [t]) eqn:E; [by destruct q|].
        cbn. by rewrite !app_nil_r.
    + intros t0 Ht0.
      destruct (decide (t0 ∈ tracks)) as [Hin|Hnotin]; [by apply Hreq|].
      apply elem_of_cons in Ht0 as [->|?]; [|done].
      destruct (decide (oid t ∈ oid <$> tracks)) as [Hdup|Hno].
      * apply list_elem_of_fmap in Hdup as (t' & Hoid & Ht').
        etrans; [|apply (Hreq t' Ht')]. unfold requester_of. by rewrite Hoid.
      * rewrite Hkeep; [|intros t' Ht' Hoid; apply Hno, list_elem_of_fmap; eauto].
        unfold requester_of; cbn. by rewrite lookup_insert_eq.
    + intros t0 Ht0. rewrite Hkeep.
      * unfold requester_of; cbn. rewrite lookup_insert_ne; [done|].
        apply Ht0. by left.
      * intros t' Ht'. apply Ht0. by right.
Qed.

(** X9. [add_to_queue] on an unknown session raises the "Node not found"
    [NodeError] and creates no task.  On a known session it returns after
    creating one [play] task per track and touching nothing else; once the
    loop has run these tasks the session's queue is the old queue followed
    by the tracks in the order given, every one of them carries the
    requester, other guilds are as before, and exactly one frame was sent,
    the play frame of the first track, if the queue was empty and at least
    one track was given, none otherwise. *)
Theorem add_to_queue_appends_in_order
    (g : Z) (tracks : list Track) (r : option Z) (s : Client) :
  let l := mkLoop s [] in
  (_nodes s !! g = None →
     add_to_queue g tracks r l = (Raised (not_found g), l))
  ∧ (∀ n, _nodes s !! g = Some n →
       let l1 := (add_to_queue g tracks r l).2 in
       let s' := running (run_ready l1) in
       (add_to_queue g tracks r l).1 = Returned tt
       ∧ running l1 = s
       ∧ List.length (ready l1) = List.length tracks
       ∧ _nodes s' !! g = Some (set_queue (objects.queue n ++ tracks) n)
       ∧ (∀ g', g' ≠ g → _nodes s' !! g' = _nodes s !! g')
       ∧ (∀ t, t ∈ tracks → requester_of s' t = r)
       ∧ wire s' = wire s ++ match objects.queue n, tracks with
                             | [], t :: _ => [play_frame g t]
                             | _, _ => []
                             end).
Proof.
  intros l. split.
  - intros Hn. unfold add_to_queue, get_guild_node. cbn. by rewrite Hn.
  - intros n Hn l1 s'.
    assert (Hl1 : add_to_queue g tracks r l
                  = (Returned tt, mkLoop s ((λ t, play g t r false) <$> tracks))).
    { unfold add_to_queue, get_guild_node. cbn. rewrite Hn.
      by rewrite create_tasks_ready. }
    subst s' l1. rewrite Hl1. cbn [fst snd running ready run_ready].
    destruct (plays_in_order g r tracks s n Hn) as (Hn' & Hother & Hwire & Hreq & _).
    split_and!; try done.
    + by rewrite length_fmap.
    + rewrite Hwire. by destruct (objects.queue n), tracks.
Qed.

Lemma add_to_queue_appends_in_order_witness :
  let a := demo_track 0 "QAAA" in
  let b := demo_track 1 "QBBB" in
  let s := demo_client [(1, demo_node 1 [] false)] in
  wire (running (run_ready (add_to_queue 1 [a; b] (Some 42) (mkLoop s [])).2))
  = wire s ++ [play_frame 1 a].
Proof.
  intros a b s.
  destruct (add_to_queue_appends_in_order 1 [a; b] (Some 42) s) as [_ Hpresent].
  destruct (Hpresent (demo_node 1 [] false)) as (_ & _ & _ & _ & _ & _ & Hwire);
    [by vm_compute|exact Hwire].
Defined.

(** X10. Queue, then listen: on a session with an empty queue and repeat
    unset, enqueue any tracks with [add_to_queue], let the loop run the
    tasks, then receive one TrackEnd frame per track.  The frames sent are
    exactly the play frames of the tracks, each once, in the order given,
    and the queue ends empty. *)
Theorem queued_tracks_each_played_once_in_order
    (api : string → Track) (g : Z) (tracks : list Track) (r : option Z)
    (evs : list (string * string)) (s : Client) (n : Node) :
  _nodes s !! g = Some n →
  objects.queue n = [] →
  objects.repeat n = false →
  Forall (λ ev, ev.1 ≠ "") evs →
  List.length evs = List.length tracks →
  let s1 := running (run_ready (add_to_queue g tracks r (mkLoop s [])).2) in
  let s2 := (_connect api (track_end_msgs g evs) s1).2 in
  wire s2 = wire s ++ (play_frame g <$> tracks)
  ∧ _nodes s2 !! g = Some (set_queue [] n).
Proof.
  intros Hn Hq Hrep Hevs Hlen s1 s2.
  assert (Hl1 : add_to_queue g tracks r (mkLoop s [])
                = (Returned tt, mkLoop s ((λ t, play g t r false) <$> tracks))).
  { unfold add_to_queue, get_guild_node. cbn. rewrite Hn.
    by rewrite create_tasks_ready. }
  destruct (plays_in_order g r tracks s n Hn) as (Hn1 & _ & Hwire1 & _).
  assert (Hs1 : s1 = foldl (λ s task, (task s).2) s ((λ t, play g t r false) <$> tracks)).
  { subst s1. by rewrite Hl1. }
  rewrite <- Hs1 in Hn1, Hwire1. rewrite Hq in Hn1, Hwire1. cbn in Hn1.
  destruct (track_ends_drain_queue_in_order api evs s1 g _ Hevs Hn1 Hrep)
    as (Hn2 & _ & Hwire2).
  subst s2. split.
  - rewrite Hwire2, Hwire1. cbn [set_queue objects.queue].
    rewrite <- app_assoc, <- fmap_app. do 2 f_equal.
    rewrite Hlen. destruct tracks as [|t tracks]; [done|].
    cbn. f_equal. apply take_ge. lia.
  - rewrite Hn2, set_queue_set_queue. cbn [set_queue objects.queue].
    by rewrite Hlen, drop_all.
Qed.

Lemma queued_tracks_each_played_once_in_order_witness :
  let a := demo_track 0 "QAAA" in
  let b := demo_track 1 "QBBB" in
  let s := demo_client [(1, demo_node 1 [] false)] in
  let s1 := running (run_ready (add_to_queue 1 [a; b] (Some 42) (mkLoop s [])).2) in
  wire (_connect (demo_track 0)
          (track_end_msgs 1 [("QAAA", "FINISHED"); ("QBBB", "FINISHED")]) s1).2
  = wire s ++ [play_frame 1 a; play_frame 1 b].
Proof.
  intros a b s s1.
  destruct (queued_tracks_each_played_once_in_order (demo_track 0) 1 [a; b]
              (Some 42) [("QAAA", "FINISHED"); ("QBBB", "FINISHED")] s
              (demo_node 1 [] false)) as [Hwire _];
    [by vm_compute|done|done|by repeat constructor|done|exact Hwire].
Defined.

(** ** What each command may change *)

Lemma destroy_nodes (s : Client) (g : Z) :
  _nodes (destroy g s).2 = _nodes s
  ∨ ∃ n, _nodes s !! g = Some n
         ∧ _nodes (destroy g s).2 = delete (objects.guild_id n) (_nodes s).
Proof.
  unfold destroy. run.
  destruct (_nodes s !! g) as [n|] eqn:Hn; cbn; [|by left].
  rewrite Hn. destruct (_nodes s !! objects.guild_id n); cbn; [|by left].
  right. by exists n.
Qed.

Ltac stored H :=
  cbn [snd _nodes] in H; rewrite lookup_insert in H;
  case_decide; [subst; injection H as <-|by left].

(** A node found in the registry after a command was there before, or is
    the target's node with one field rewritten by that command, or is the
    fresh node of a binding [voice_update]. *)
Lemma state_after_node (rd : bool) (c : Command) (s : Client) (g : Z) (n' : Node) :
  _nodes (state_after rd c s) !! g = Some n' →
  _nodes s !! g = Some n'
  ∨ (∃ n, _nodes s !! g = Some n
       ∧ ((∃ t r, c = Play g t r false ∧ n' = set_queue (objects.queue n ++ [t]) n)
          ∨ (c = Stop g ∧ n' = set_queue [] n)
          ∨ (∃ rng q, c = Shuffle rng g ∧ q ≡ₚ objects.queue n ∧ n' = set_queue q n)
          ∨ (∃ v, c = Volume g v ∧ 0 ≤ v ≤ 1000 ∧ n' = set_volume v n)
          ∨ (∃ b, c = Repeat g b ∧ n' = set_repeat b n)))
  ∨ (∃ sid tok ep ch, c = VoiceUpdate g sid tok ep (Some ch) ∧ ch ≠ 0
       ∧ n' = mkNode g [] 100 rd true).
Proof.
  intros H.
  destruct c as [g0 t r start|g0|g0|g0 b|g0 pos|g0 v|g0 b|g0 f|rng g0|g0|g0 sid tok ep ch];
    cbn [state_after] in H;
    destruct (_nodes s !! g0) as [n|] eqn:Hn.
  - destruct start.
    + rewrite (play_force_run s g0 n t r Hn) in H. by left.
    + rewrite (play_queue_run s g0 n t r Hn) in H. stored H.
      right; left. exists n. split; [done|]. left. by exists t, r.
  - rewrite play_absent in H by done. by left.
  - destruct (decide (objects.queue n = [])) as [Hq|Hq].
    + rewrite (stop_empty_run s g0 n Hn Hq) in H. by left.
    + rewrite (stop_run s g0 n Hn Hq) in H. stored H.
      right; left. exists n. split; [done|]. right; left. done.
  - rewrite stop_absent in H by done. by left.
  - destruct (decide (objects.queue n = [])) as [Hq|Hq].
    + rewrite (skip_empty_run s g0 n Hn Hq) in H. by left.
    + rewrite (skip_run s g0 n Hn Hq) in H. by left.
  - rewrite skip_absent in H by done. by left.
  - rewrite (pause_run s g0 n Hn) in H. by left.
  - rewrite pause_absent in H by done. by left.
  - rewrite (seek_run s g0 n Hn) in H. by left.
  - rewrite seek_absent in H by done. by left.
  - destruct (volume_cases v) as [Hv|Hv].
    + rewrite volume_out_of_range in H by done. by left.
    + rewrite (volume_run s g0 n Hn v Hv) in H. stored H.
      right; left. exists n. split; [done|]. do 3 right. left. by exists v.
  - destruct (volume_cases v) as [Hv|Hv].
    + rewrite volume_out_of_range in H by done. by left.
    + rewrite volume_absent in H by done. by left.
  - rewrite (repeat_run s g0 n Hn) in H. stored H.
    right; left. exists n. split; [done|]. do 4 right. by exists b.
  - rewrite repeat_absent in H by done. by left.
  - rewrite (filters_run s g0 n Hn) in H. by left.
  - rewrite filters_absent in H by done. by left.
  - destruct (objects.queue n) as [|np rest] eqn:Hq.
    + rewrite (shuffle_empty_run s g0 n Hn rng Hq) in H. by left.
    + rewrite (shuffle_run s g0 n Hn rng np rest Hq) in H. stored H.
      right; left. exists n. split; [done|]. do 2 right. left.
      exists rng, (np :: sample rng rest (List.length rest)).
      split_and!; [done| |done]. rewrite Hq. f_equiv. apply sample_Permutation.
  - rewrite shuffle_absent in H by done. by left.
  - destruct (destroy_nodes s g0) as [Hsame|(n0 & _ & Hdel)].
    + rewrite Hsame in H. by left.
    + rewrite Hdel in H. apply lookup_delete_Some in H as [_ H]. by left.
  - rewrite destroy_absent in H by done. by left.
  - destruct (falsy_id ch) eqn:Hch.
    + rewrite voice_update_falsy in H by done.
      destruct (destroy_nodes s g0) as [Hsame|(n0 & _ & Hdel)].
      * rewrite Hsame in H. by left.
      * rewrite Hdel in H. apply lookup_delete_Some in H as [_ H]. by left.
    + destruct ch as [c|]; [|done]. cbn in Hch.
      rewrite voice_update_run in H by lia. stored H.
      right; right. exists sid, tok, ep, c. split_and!; [done|lia|done].
  - destruct (falsy_id ch) eqn:Hch.
    + rewrite voice_update_falsy, destroy_absent in H by done. by left.
    + destruct ch as [c|]; [|done]. cbn in Hch.
      rewrite voice_update_run in H by lia. stored H.
      right; right. exists sid, tok, ep, c. split_and!; [done|lia|done].
Qed.

(** X11. Apart from a binding [voice_update], which replaces the session,
    a command changes at most one field of a session: the guild id and the
    connected flag never change, only [volume] changes the volume, only
    [repeat] changes the repeat flag, and only a non-forced [play], [stop]
    and [shuffle] change the queue, [shuffle] keeping its elements. *)
Theorem commands_change_only_their_field
    (rd : bool) (c : Command) (s : Client) (g : Z) (n n' : Node) :
  _nodes s !! g = Some n →
  _nodes (state_after rd c s) !! g = Some n' →
  (∀ sid tok ep ch, c ≠ VoiceUpdate g sid tok ep ch) →
  objects.guild_id n' = objects.guild_id n
  ∧ is_connected n' = is_connected n
  ∧ ((∀ v, c ≠ Volume g v) → objects.volume n' = objects.volume n)
  ∧ ((∀ b, c ≠ Repeat g b) → objects.repeat n' = objects.repeat n)
  ∧ ((∀ t r, c ≠ Play g t r false) → c ≠ Stop g → (∀ rng, c ≠ Shuffle rng g) →
     objects.queue n' = objects.queue n)
  ∧ ((∀ rng, c = Shuffle rng g → objects.queue n' ≡ₚ objects.queue n)).
Proof.
  intros Hn Hn' Hbind.
  destruct (state_after_node rd c s g n' Hn')
    as [Hsame|[(n0 & Hn0 & Hcase)|(sid & tok & ep & ch & -> & _)]].
  - assert (n' = n) as -> by congruence. by split_and!.
  - assert (n0 = n) as -> by congruence.
    destruct Hcase as [(t & r & -> & ->)|[[-> ->]|[(rng & q & -> & Hq & ->)
                      |[(v & -> & _ & ->)|(b & -> & ->)]]]];
      split_and!; try done; try (intros; exfalso; naive_solver).
  - by destruct (Hbind sid tok ep (Some ch)).
Qed.

Lemma commands_change_only_their_field_witness :
  let n := mkNode 1 [demo_track 0 "QAAA"] 35 true true in
  let s := demo_client [(1, n)] in
  match _nodes (state_after false (Stop 1) s) !! 1 with
  | Some n' => objects.volume n' = 35
  | None => True
  end.
Proof.
  intros n s.
  destruct (_nodes (state_after false (Stop 1) s) !! 1) as [n'|] eqn:Hn'; [|done].
  destruct (commands_change_only_their_field false (Stop 1) s 1 n n')
    as (_ & _ & Hvol & _); [by vm_compute|done|done|].
  by apply Hvol.
Defined.

(** ** Invariants of the states a client goes through *)

Lemma reachable_nodes_sound (api : string → Track) (rd : bool) (s : Client) :
  reachable api rd s →
  ∀ g n, _nodes s !! g = Some n →
    objects.guild_id n = g ∧ 0 ≤ objects.volume n ≤ 1000 ∧ is_connected n = true.
Proof.
  induction 1 as [|c s _ IH|pyload s _ IH]; intros g n' Hn'.
  - cbn in Hn'. by rewrite lookup_empty in Hn'.
  - destruct (state_after_node rd c s g n' Hn')
      as [Hsame|[(n0 & Hn0 & Hcase)|(sid & tok & ep & ch & -> & _ & ->)]].
    + by apply IH.
    + destruct (IH g n0 Hn0) as (Hid & Hvol & Hcon).
      destruct Hcase as [(t & r & -> & ->)|[[-> ->]|[(rng & q & -> & Hq & ->)
                        |[(v & -> & Hv & ->)|(b & -> & ->)]]]]; by cbn.
    + cbn. split_and!; done || lia.
  - destruct (callback_cases api pyload s)
      as (_ & _ & [[Hsame _]|(g0 & h & n & head & rest & reason & _ & _ & Hn & _ & Hcase)]).
    + rewrite Hsame in Hn'. by apply IH.
    + destruct Hcase as [(_ & Hsame & _)|(_ & Hins & _)].
      * rewrite Hsame in Hn'. by apply IH.
      * rewrite Hins, lookup_insert in Hn'. case_decide; [|by apply IH].
        subst g0. injection Hn' as <-. by destruct (IH g n Hn).
Qed.

(** X12. In every state a client goes through, starting from a new client
    and running commands and handling inbound frames in any order, the
    volume of every session is within 0..1000. *)
Theorem reachable_volume_in_range
    (api : string → Track) (rd : bool) (s : Client) (g : Z) (n : Node) :
  reachable api rd s →
  _nodes s !! g = Some n →
  0 ≤ objects.volume n ≤ 1000.
Proof. intros Hs Hn. by destruct (reachable_nodes_sound api rd s Hs g n Hn) as (_ & ? & _). Qed.

Lemma reachable_volume_in_range_witness :
  let s := state_after false (Volume 1 1000)
             (state_after false
                (VoiceUpdate 1 "sess" "tok" "wss://eu.example:443" (Some 55))
                new_client) in
  match _nodes s !! 1 with
  | Some n => 0 ≤ objects.volume n ≤ 1000
  | None => True
  end.
Proof.
  intros s. destruct (_nodes s !! 1) as [n|] eqn:Hn; [|done].
  apply (reachable_volume_in_range (demo_track 0) false s 1 n); [|done].
  do 2 apply reachable_command. apply reachable_new.
Defined.

(** X13. In every state a client goes through, every session is stored
    under its own guild id and has its connected flag set: no command and
    no inbound frame ever clears the flag. *)
Theorem reachable_sessions_connected
    (api : string → Track) (rd : bool) (s : Client) (g : Z) (n : Node) :
  reachable api rd s →
  _nodes s !! g = Some n →
  objects.guild_id n = g ∧ is_connected n = true.
Proof. intros Hs Hn. by destruct (reachable_nodes_sound api rd s Hs g n Hn) as (? & _ & ?). Qed.

Lemma reachable_sessions_connected_witness :
  let s := (callback (demo_track 0)
              (EventOp None 1 (WebSocketClosed 4006 "closed" true))
              (state_after false
                 (VoiceUpdate 1 "sess" "tok" "wss://eu.example:443" (Some 55))
                 new_client)).2 in
  match _nodes s !! 1 with
  | Some n => is_connected n = true
  | None => True
  end.
Proof.
  intros s. destruct (_nodes s !! 1) as [n|] eqn:Hn; [|done].
  apply (reachable_sessions_connected (demo_track 0) false s 1 n); [|done].
  apply reachable_frame, reachable_command, reachable_new.
Defined.

(** ** Commands in sequence *)

(** X14. Once [destroy] has removed a session (stored under its own guild
    id), the session is unknown again: a second [destroy] and every other
    command that looks the session up raise the "Node not found"
    [NodeError] and change nothing, and a TrackEnd frame for the guild
    sends nothing. *)
Theorem destroyed_session_is_unknown
    (api : string → Track) (s : Client) (g : Z) (n : Node) :
  _nodes s !! g = Some n →
  objects.guild_id n = g →
  let s1 := (destroy g s).2 in
  destroy g s = (Returned tt, s1)
  ∧ wire s1 = wire s ++ [destroy_frame g]
  ∧ destroy g s1 = (Raised (not_found g), s1)
  ∧ (∀ t r start, play g t r start s1 = (Raised (not_found g), s1))
  ∧ skip g s1 = (Raised (not_found g), s1)
  ∧ (∀ b, pause g b s1 = (Raised (not_found g), s1))
  ∧ (∀ pos, seek g pos s1 = (Raised (not_found g), s1))
  ∧ (∀ v, 0 ≤ v ≤ 1000 → volume g v s1 = (Raised (not_found g), s1))
  ∧ (∀ rng, shuffle rng g s1 = (Raised (not_found g), s1))
  ∧ (∀ h reason,
       sent_by (callback api (EventOp h g (TrackEnd reason))) s1 = []).
Proof.
  intros Hn Hg s1. subst s1. rewrite (destroy_run s g n Hn Hg). cbn [snd wire].
  set (s1 := mkClient _ _ _ _ _ _).
  assert (Hgone : _nodes s1 !! g = None) by apply lookup_delete_eq.
  split_and!; try done; intros.
  - by apply destroy_absent.
  - by apply play_absent.
  - by apply skip_absent.
  - by apply pause_absent.
  - by apply seek_absent.
  - by apply volume_absent.
  - by apply shuffle_absent.
  - unfold sent_by. destruct h as [h|]; [|apply drop_all_own].
    destruct (decide (h = "")) as [->|Hh]; [apply drop_all_own|].
    rewrite callback_track_end_idle_run by eauto. apply drop_all_own.
Qed.

Lemma destroyed_session_is_unknown_witness :
  let s := demo_client [(1, demo_node 1 [demo_track 0 "QAAA"] false)] in
  destroy 1 (destroy 1 s).2 = (Raised (not_found 1), (destroy 1 s).2).
Proof.
  intros s.
  by destruct (destroyed_session_is_unknown (demo_track 0) s 1
                 (demo_node 1 [demo_track 0 "QAAA"] false))
    as (_ & _ & H & _); [by vm_compute|done|].
Defined.

(** X15. [skip] only sends a stop frame and leaves the queue alone; the
    queue advances when the node answers with a TrackEnd frame.  On a
    session with at least two tracks queued and repeat unset, [skip]
    followed by that frame sends the stop frame and then the play frame of
    the second track, and the queue has lost its head.  On an empty queue
    [skip] returns [None] and sends nothing. *)
Theorem skip_then_track_end_plays_next
    (api : string → Track) (s : Client) (g : Z) (n : Node)
    (head next : Track) (rest : list Track) (h reason : string) :
  _nodes s !! g = Some n →
  objects.queue n = head :: next :: rest →
  objects.repeat n = false →
  h ≠ "" →
  let s1 := (skip g s).2 in
  let s2 := (callback api (EventOp (Some h) g (TrackEnd reason)) s1).2 in
  skip g s = (Returned (Some n), s1)
  ∧ _nodes s1 = _nodes s
  ∧ wire s2 = wire s ++ [stop_frame g; play_frame g next]
  ∧ _nodes s2 !! g = Some (set_queue (next :: rest) n)
  ∧ (∀ s0 n0, _nodes s0 !! g = Some n0 → objects.queue n0 = [] →
       skip g s0 = (Returned None, s0)).
Proof.
  intros Hn Hq Hrep Hh s1 s2. subst s2 s1.
  assert (Hne : objects.queue n ≠ []) by by rewrite Hq.
  rewrite (skip_run s g n Hn Hne). cbn [snd].
  set (s1 := mkClient _ _ _ _ _ _).
  rewrite (callback_track_end_advance_run api s1 g h Hh n head next rest reason)
    by done.
  cbn. rewrite lookup_insert_eq, <- app_assoc. split_and!; try done.
  intros s0 n0 Hn0 Hq0. by apply (skip_empty_run s0 g n0).
Qed.

Lemma skip_then_track_end_plays_next_witness :
  let a := demo_track 0 "QAAA" in
  let b := demo_track 1 "QBBB" in
  let s := demo_client [(1, demo_node 1 [a; b] false)] in
  wire (callback (demo_track 0) (EventOp (Some "QAAA") 1 (TrackEnd "STOPPED"))
          (skip 1 s).2).2
  = wire s ++ [stop_frame 1; play_frame 1 b].
Proof.
  intros a b s.
  by destruct (skip_then_track_end_plays_next (demo_track 0) s 1
                 (demo_node 1 [a; b] false) a b [] "QAAA" "STOPPED")
    as (_ & _ & H & _); [by vm_compute|done|done|done|].
Defined.

(** X16. After [stop] on a non-empty queue nothing is left to play: the
    TrackEnd frame the node answers with sends nothing and the queue stays
    empty, a following [skip] returns [None] and sends nothing, and a second
    [stop] raises the "Node not found" [NodeError] although the session is
    still in the registry. *)
Theorem stop_then_track_end_is_quiet
    (api : string → Track) (s : Client) (g : Z) (n : Node) (h reason : string) :
  _nodes s !! g = Some n →
  objects.queue n ≠ [] →
  h ≠ "" →
  let s1 := (stop g s).2 in
  let s2 := (callback api (EventOp (Some h) g (TrackEnd reason)) s1).2 in
  wire s2 = wire s ++ [stop_frame g]
  ∧ _nodes s2 !! g = Some (set_queue [] n)
  ∧ skip g s1 = (Returned None, s1)
  ∧ stop g s1 = (Raised (not_found g), s1)
  ∧ _nodes s1 !! g = Some (set_queue [] n).
Proof.
  intros Hn Hq Hh s1 s2. subst s2 s1.
  rewrite (stop_run s g n Hn Hq). cbn [snd].
  set (s1 := mkClient _ _ _ _ _ _).
  assert (Hn1 : _nodes s1 !! g = Some (set_queue [] n)) by apply lookup_insert_eq.
  rewrite callback_track_end_idle_run by eauto. cbn [snd wire _nodes].
  split_and!; try done.
  - by apply (skip_empty_run s1 g (set_queue [] n)).
  - by apply (stop_empty_run s1 g (set_queue [] n)).
Qed.

Lemma stop_then_track_end_is_quiet_witness :
  let s := demo_client [(1, demo_node 1 [demo_track 0 "QAAA"] false)] in
  stop 1 (stop 1 s).2 = (Raised (not_found 1), (stop 1 s).2).
Proof.
  intros s.
  by destruct (stop_then_track_end_is_quiet (demo_track 0) s 1
                 (demo_node 1 [demo_track 0 "QAAA"] false) "QAAA" "STOPPED")
    as (_ & _ & _ & H & _); [by vm_compute|done|done|].
Defined.

(** X17. [pause], [seek], [filters], [skip] and a forced [play] never
    change the registry or any track's requester, whether the session is
    known or not and whether they return or raise. *)
Theorem passive_commands_keep_registry (s : Client) (g : Z) :
  (∀ b, _nodes (pause g b s).2 = _nodes s ∧ requesters (pause g b s).2 = requesters s)
  ∧ (∀ pos, _nodes (seek g pos s).2 = _nodes s
            ∧ requesters (seek g pos s).2 = requesters s)
  ∧ (∀ f, _nodes (filters g f s).2 = _nodes s
          ∧ requesters (filters g f s).2 = requesters s)
  ∧ (_nodes (skip g s).2 = _nodes s ∧ requesters (skip g s).2 = requesters s)
  ∧ (∀ t r, _nodes (play g t r true s).2 = _nodes s
            ∧ requesters (play g t r true s).2 = requesters s).
Proof.
  destruct (_nodes s !! g) as [n|] eqn:Hn.
  - split_and!; intros.
    + by rewrite (pause_run s g n Hn).
    + by rewrite (seek_run s g n Hn).
    + by rewrite (filters_run s g n Hn).
    + destruct (decide (objects.queue n = [])) as [Hq|Hq].
      * by rewrite (skip_empty_run s g n Hn Hq).
      * by rewrite (skip_run s g n Hn Hq).
    + destruct (decide (objects.queue n = [])) as [Hq|Hq].
      * by rewrite (skip_empty_run s g n Hn Hq).
      * by rewrite (skip_run s g n Hn Hq).
    + by rewrite (play_force_run s g n t r Hn).
  - split_and!; intros.
    + by rewrite pause_absent.
    + by rewrite seek_absent.
    + by rewrite filters_absent.
    + by rewrite skip_absent.
    + by rewrite skip_absent.
    + by rewrite play_absent.
Qed.

(** X18. The repeat flag in force when a track ends decides what is
    played: after [repeat] set it, a TrackEnd frame replays the track the
    frame names and keeps the queue; after [repeat] cleared it, the same
    frame removes the head and plays the next track.  [repeat] itself sends
    nothing and keeps queue and volume. *)
Theorem repeat_flag_decides_track_end
    (api : string → Track) (s : Client) (g : Z) (n : Node)
    (head next : Track) (rest : list Track) (h reason : string) :
  _nodes s !! g = Some n →
  objects.queue n = head :: next :: rest →
  h ≠ "" →
  let ev := callback api (EventOp (Some h) g (TrackEnd reason)) in
  (∀ b, repeat g b s = (Returned tt, (repeat g b s).2)
        ∧ wire (repeat g b s).2 = wire s
        ∧ _nodes (repeat g b s).2 !! g = Some (set_repeat b n))
  ∧ wire (ev (repeat g true s).2).2 = wire s ++ [play_frame_of g h]
  ∧ _nodes (ev (repeat g true s).2).2 !! g = Some (set_repeat true n)
  ∧ wire (ev (repeat g false s).2).2 = wire s ++ [play_frame g next]
  ∧ _nodes (ev (repeat g false s).2).2 !! g
      = Some (set_queue (next :: rest) (set_repeat false n)).
Proof.
  intros Hn Hq Hh ev. subst ev. split.
  { intros b. rewrite (repeat_run s g n Hn). cbn. by rewrite lookup_insert_eq. }
  rewrite !(repeat_run s g n Hn). cbn [snd].
  set (s1 := mkClient (<[g := set_repeat true n]> _) _ _ _ _ _).
  set (s0 := mkClient (<[g := set_repeat false n]> _) _ _ _ _ _).
  assert (Hn1 : _nodes s1 !! g = Some (set_repeat true n)) by apply lookup_insert_eq.
  assert (Hn0 : _nodes s0 !! g = Some (set_repeat false n)) by apply lookup_insert_eq.
  rewrite (callback_track_end_repeat_run api s1 g h Hh (set_repeat true n)
             head (next :: rest) reason Hn1 Hq eq_refl).
  rewrite (callback_track_end_advance_run api s0 g h Hh (set_repeat false n)
             head next rest reason Hn0 Hq eq_refl).
  cbn [snd wire _nodes]. rewrite lookup_insert_eq. by split_and!.
Qed.

Lemma repeat_flag_decides_track_end_witness :
  let a := demo_track 0 "QAAA" in
  let b := demo_track 1 "QBBB" in
  let s := demo_client [(1, demo_node 1 [a; b] false)] in
  wire (callback (demo_track 0) (EventOp (Some "QAAA") 1 (TrackEnd "FINISHED"))
          (repeat 1 true s).2).2
  = wire s ++ [play_frame_of 1 "QAAA"].
Proof.
  intros a b s.
  by destruct (repeat_flag_decides_track_end (demo_track 0) s 1
                 (demo_node 1 [a; b] false) a b [] "QAAA" "FINISHED")
    as (_ & H & _); [by vm_compute|done|done|].
Defined.

(** ** Filters *)

Lemma dict_get_set_eq (k : string) (v : JSON) (d : dict) :
  dict_get k (dict_set k v d) = Some v.
Proof.
  induction d as [|[k' v'] d IH]; cbn.
  - by rewrite String.eqb_refl.
  - destruct (String.eqb k k') eqn:E; cbn; rewrite E; [done|apply IH].
Qed.

Lemma dict_get_set_ne (k k0 : string) (v : JSON) (d : dict) :
  k0 ≠ k → dict_get k0 (dict_set k v d) = dict_get k0 d.
Proof.
  intros Hne. induction d as [|[k' v'] d IH]; cbn.
  - by apply String.eqb_neq in Hne as ->.
  - destruct (String.eqb k k') eqn:E; cbn.
    + apply String.eqb_eq in E as <-. by apply String.eqb_neq in Hne as ->.
    + by rewrite IH.
Qed.

Lemma dict_set_keys (k : string) (v : JSON) (d : dict) :
  d.*1 ⊆+ (dict_set k v d).*1
  ∧ (is_Some (dict_get k d) → (dict_set k v d).*1 = d.*1)
  ∧ (dict_get k d = None → (dict_set k v d).*1 = d.*1 ++ [k]).
Proof.
  induction d as [|[k' v'] d (IH1 & IH2 & IH3)]; cbn.
  - split_and!; [apply submseteq_nil_l|by intros []|done].
  - destruct (String.eqb k k') eqn:E; cbn.
    + split_and!; [done|done|done].
    + split_and!; [by constructor|intros; by rewrite IH2|intros; by rewrite IH3].
Qed.

(** X19. On a known session [filters] sends exactly one frame and leaves
    the registry alone.  The frame is the caller's payload with ["guildId"]
    set to the guild id as text: that key reads back as the guild id, every
    other key reads back as in the payload, and the keys keep their order,
    ["guildId"] being added at the end when the payload had none and
    overwritten in place when it had one. *)
Theorem filters_sends_payload_with_guild_id
    (s : Client) (g : Z) (n : Node) (f : Filters) :
  _nodes s !! g = Some n →
  ∃ frame,
    sent_by (filters g f) s = [frame]
    ∧ _nodes (filters g f s).2 = _nodes s
    ∧ dict_get "guildId" frame = Some (JStr (str g))
    ∧ (∀ k, k ≠ "guildId" → dict_get k frame = dict_get k (_payload f))
    ∧ (is_Some (dict_get "guildId" (_payload f)) → frame.*1 = (_payload f).*1)
    ∧ (dict_get "guildId" (_payload f) = None →
       frame.*1 = (_payload f).*1 ++ ["guildId"]).
Proof.
  intros Hn. exists (dict_set "guildId" (JStr (str g)) (_payload f)).
  unfold sent_by. rewrite (filters_run s g n Hn). cbn [snd wire _nodes].
  rewrite drop_own_length.
  destruct (dict_set_keys "guildId" (JStr (str g)) (_payload f)) as (_ & Hk1 & Hk2).
  split_and!; try done.
  - apply dict_get_set_eq.
  - intros k Hk. by apply dict_get_set_ne.
Qed.

Lemma filters_sends_payload_with_guild_id_witness :
  let s := demo_client [(1, demo_node 1 [] false)] in
  let f := mkFilters [("op", JStr "filters"); ("guildId", JStr "0");
                      ("volume", JInt 2)] in
  sent_by (filters 1 f) s
  = [[("op", JStr "filters"); ("guildId", JStr "1"); ("volume", JInt 2)]].
Proof.
  intros s f.
  destruct (filters_sends_payload_with_guild_id s 1 (demo_node 1 [] false) f)
    as (frame & Hsent & _); [by vm_compute|].
  rewrite Hsent. by vm_compute.
Defined.

(** ** The registry accessors *)

(** X20. [remove_guild_node] removes the key the stored node names, not
    the key it was asked for.  For a node stored under its own guild id the
    entry is removed and the other entries stay.  For a node stored under
    [g] that names another guild [k], the entry of [k] is removed and the
    entry under [g] stays, or [KeyError] is raised with nothing changed when
    [k] is not in the registry.  On an unknown guild the call raises
    [AttributeError]. *)
Theorem remove_guild_node_pops_named_key (s : Client) (g : Z) :
  (_nodes s !! g = None → remove_guild_node g s = (Raised AttributeError, s))
  ∧ (∀ n, _nodes s !! g = Some n →
       let k := objects.guild_id n in
       (_nodes s !! k = None → remove_guild_node g s = (Raised (KeyError k), s))
       ∧ (is_Some (_nodes s !! k) →
            (remove_guild_node g s).1 = Returned tt
            ∧ _nodes (remove_guild_node g s).2 = delete k (_nodes s)
            ∧ _nodes (remove_guild_node g s).2 !! k = None
            ∧ (k ≠ g → _nodes (remove_guild_node g s).2 !! g = Some n)
            ∧ (∀ g', g' ≠ k →
                 _nodes (remove_guild_node g s).2 !! g' = _nodes s !! g'))).
Proof.
  split.
  - intros Hn. unfold remove_guild_node. run. by rewrite Hn.
  - intros n Hn k. subst k. split.
    + intros Hk. unfold remove_guild_node. run. rewrite Hn. cbn. by rewrite Hk.
    + intros [n' Hk]. unfold remove_guild_node. run. rewrite Hn. cbn.
      rewrite Hk. cbn. rewrite lookup_delete_eq. split_and!; try done.
      * intros Hne. by rewrite lookup_delete_ne.
      * intros g' Hne. by rewrite lookup_delete_ne.
Qed.

Lemma remove_guild_node_pops_named_key_witness :
  let s := demo_client [(1, demo_node 2 [] false); (2, demo_node 2 [] true)] in
  _nodes (remove_guild_node 1 s).2 !! 1 = Some (demo_node 2 [] false)
  ∧ _nodes (remove_guild_node 1 s).2 !! 2 = None.
Proof.
  intros s.
  destruct (remove_guild_node_pops_named_key s 1) as [_ Hpresent].
  destruct (Hpresent (demo_node 2 [] false)) as [_ Hpop]; [by vm_compute|].
  destruct Hpop as (_ & _ & Hgone & Hstays & _); [eexists; by vm_compute|].
  split; [by apply Hstays|exact Hgone].
Defined.

(** X21. [set_guild_node] stores a node under any guild id, known or not,
    and never raises; a following [get_guild_node] or [queue] on that id
    returns the node, respectively its queue, and every other id reads as
    before.  [create_new_node] stores a fresh node with an empty queue and
    volume 100 in the same way, replacing whatever was there.  [queue] on an
    unknown guild raises [AttributeError]. *)
Theorem set_then_get_guild_node (rd : bool) (s : Client) (g : Z) (n : Node) :
  let s1 := (set_guild_node g n s).2 in
  let s2 := (create_new_node rd g false s).2 in
  set_guild_node g n s = (Returned tt, s1)
  ∧ get_guild_node g s1 = (Returned (Some n), s1)
  ∧ queue g s1 = (Returned (objects.queue n), s1)
  ∧ (∀ g', g' ≠ g → get_guild_node g' s1 = (Returned (_nodes s !! g'), s1))
  ∧ create_new_node rd g false s = (Returned (mkNode g [] 100 rd false), s2)
  ∧ get_guild_node g s2 = (Returned (Some (mkNode g [] 100 rd false)), s2)
  ∧ (_nodes s !! g = None → queue g s = (Raised AttributeError, s)).
Proof.
  intros s1 s2. subst s1 s2. unfold create_new_node, queue. run.
  rewrite !lookup_insert_eq. split_and!; try done.
  - intros g' Hne. by rewrite lookup_insert_ne.
  - by intros ->.
Qed.

Lemma set_then_get_guild_node_witness :
  queue 7 new_client = (Raised AttributeError, new_client)
  ∧ get_guild_node 7 (set_guild_node 7 (demo_node 7 [] false) new_client).2
    = (Returned (Some (demo_node 7 [] false)),
       (set_guild_node 7 (demo_node 7 [] false) new_client).2).
Proof.
  destruct (set_then_get_guild_node false new_client 7 (demo_node 7 [] false))
    as (_ & Hget & _ & _ & _ & _ & Hqueue).
  split; [by apply Hqueue|exact Hget].
Defined.

(** ** Voice signalling *)

Lemma in_client_run {A} (m : Coro A) (v : VoiceClient) (r : Outcome A) (s' : Client) :
  m (client v) = (r, s') →
  in_client m v = (r, mkVoiceClient s' (user_id v) (_voice_handlers v)).
Proof. intros H. unfold in_client. by rewrite H. Qed.

Lemma voice_client_eta (v : VoiceClient) :
  mkVoiceClient (client v) (user_id v) (_voice_handlers v) = v.
Proof. by destruct v. Qed.

Lemma raw_voice_state_update_store (v : VoiceClient) (g c : Z) (session_id : string) :
  c ≠ 0 →
  raw_voice_state_update g (user_id v) session_id (Some c) v =
    (Returned tt,
     mkVoiceClient (client v) (user_id v)
       (<[g := voice.mkConnectionInfo g session_id c]> (_voice_handlers v))).
Proof.
  intros Hc. unfold raw_voice_state_update. rewrite Z.eqb_refl. cbn [negb].
  by replace (c =? 0) with false by lia.
Qed.

Lemma raw_voice_server_update_known (rd : bool) (v : VoiceClient) (g : Z)
    (endpoint token : string) (ci : voice.ConnectionInfo) :
  _voice_handlers v !! g = Some ci →
  voice.channel_id ci ≠ 0 →
  raw_voice_server_update rd g endpoint token v =
    (Returned tt,
     mkVoiceClient
       (mkClient (<[g := mkNode g [] 100 rd true]> (_nodes (client v)))
          (requesters (client v)) (next_oid (client v)) (info (client v))
          (wire (client v)
             ++ [voiceUpdate_frame g (voice.session_id ci) token
                   (replace endpoint "wss://" "")])
          (emitted (client v)))
       (user_id v) (_voice_handlers v)).
Proof.
  intros Hci Hc. unfold raw_voice_server_update. rewrite Hci.
  by rewrite (in_client_run _ v _ _ (voice_update_run rd (client v) g
                (voice.session_id ci) token endpoint (voice.channel_id ci) Hc)).
Qed.

(** X22. A voice state update of the client's own user with a non-zero
    channel id is remembered without touching the client; the voice server
    update that follows binds the session: exactly one frame is sent, the
    voiceUpdate frame carrying the remembered session id with the new token
    and endpoint, and the registry holds a fresh connected node for the
    guild.  A voice state update of any other user, and a voice server
    update for a guild with nothing remembered, change nothing. *)
Theorem voice_state_then_server_update_binds
    (rd : bool) (v : VoiceClient) (g c : Z) (session_id endpoint token : string) :
  c ≠ 0 →
  let v1 := (raw_voice_state_update g (user_id v) session_id (Some c) v).2 in
  let v2 := (raw_voice_server_update rd g endpoint token v1).2 in
  raw_voice_state_update g (user_id v) session_id (Some c) v = (Returned tt, v1)
  ∧ client v1 = client v
  ∧ _voice_handlers v1 !! g = Some (voice.mkConnectionInfo g session_id c)
  ∧ raw_voice_server_update rd g endpoint token v1 = (Returned tt, v2)
  ∧ wire (client v2)
    = wire (client v)
      ++ [voiceUpdate_frame g session_id token (replace endpoint "wss://" "")]
  ∧ _nodes (client v2) !! g = Some (mkNode g [] 100 rd true)
  ∧ (∀ uid sid ch, uid ≠ user_id v →
       raw_voice_state_update g uid sid ch v = (Returned tt, v))
  ∧ (_voice_handlers v !! g = None →
       raw_voice_server_update rd g endpoint token v = (Returned tt, v)).
Proof.
  intros Hc v1 v2. subst v2 v1.
  rewrite (raw_voice_state_update_store v g c session_id Hc). cbn [snd].
  set (v1 := mkVoiceClient _ _ _).
  assert (Hh : _voice_handlers v1 !! g = Some (voice.mkConnectionInfo g session_id c))
    by apply lookup_insert_eq.
  rewrite (raw_voice_server_update_known rd v1 g endpoint token _ Hh Hc).
  cbn [snd client wire _nodes voice.session_id]. rewrite lookup_insert_eq.
  split_and!; try done.
  - intros uid sid ch Hne. unfold raw_voice_state_update.
    by replace (uid =? user_id v) with false by lia.
  - intros Hnone. unfold raw_voice_server_update. by rewrite Hnone.
Qed.

Lemma voice_state_then_server_update_binds_witness :
  let v := mkVoiceClient new_client 900 ∅ in
  let v1 := (raw_voice_state_update 1 900 "sess" (Some 55) v).2 in
  wire (client (raw_voice_server_update false 1 "wss://eu.example:443" "tok" v1).2)
  = [voiceUpdate_frame 1 "sess" "tok" "eu.example:443"].
Proof.
  intros v v1.
  destruct (voice_state_then_server_update_binds false v 1 55 "sess"
              "wss://eu.example:443" "tok") as (_ & _ & _ & _ & Hwire & _); [done|].
  exact Hwire.
Defined.

(** X23. A voice state update of the client's own user without a channel
    (or with channel id 0) destroys the session when it is known (stored
    under its own guild id): the session leaves the registry and one destroy
    frame is sent; when the session is unknown the "Node not found"
    [NodeError] reaches the caller.  Either way the connection remembered
    for the guild is not forgotten, so a later voice server update binds the
    guild again under the remembered session id. *)
Theorem voice_disconnect_keeps_remembered_connection
    (rd : bool) (v : VoiceClient) (g : Z) (session_id endpoint token : string)
    (ch : option Z) :
  falsy_id ch = true →
  let v1 := (raw_voice_state_update g (user_id v) session_id ch v).2 in
  (∀ n, _nodes (client v) !! g = Some n → objects.guild_id n = g →
     raw_voice_state_update g (user_id v) session_id ch v = (Returned tt, v1)
     ∧ _nodes (client v1) !! g = None
     ∧ wire (client v1) = wire (client v) ++ [destroy_frame g])
  ∧ (_nodes (client v) !! g = None →
     raw_voice_state_update g (user_id v) session_id ch v
     = (Raised (not_found g), v))
  ∧ _voice_handlers v1 = _voice_handlers v
  ∧ (∀ ci, _voice_handlers v !! g = Some ci → voice.channel_id ci ≠ 0 →
       let v2 := (raw_voice_server_update rd g endpoint token v1).2 in
       _nodes (client v2) !! g = Some (mkNode g [] 100 rd true)
       ∧ sent_by (voice_update rd g (voice.session_id ci) token endpoint
                    (Some (voice.channel_id ci))) (client v1)
         = [voiceUpdate_frame g (voice.session_id ci) token
              (replace endpoint "wss://" "")]).
Proof.
  intros Hch v1.
  assert (Hrun : raw_voice_state_update g (user_id v) session_id ch v
                 = in_client (destroy g) v).
  { unfold raw_voice_state_update. rewrite Z.eqb_refl. cbn [negb].
    destruct ch as [c|]; [|done]. cbn in Hch. by rewrite Hch. }
  subst v1. rewrite Hrun. split_and!.
  - intros n Hn Hg.
    rewrite (in_client_run _ v _ _ (destroy_run (client v) g n Hn Hg)).
    cbn. by rewrite lookup_delete_eq.
  - intros Hn.
    rewrite (in_client_run _ v _ _ (destroy_absent (client v) g Hn)).
    by rewrite voice_client_eta.
  - unfold in_client. by destruct (destroy g (client v)).
  - intros ci Hci Hc v2. subst v2.
    assert (Hh : _voice_handlers (in_client (destroy g) v).2 !! g = Some ci).
    { unfold in_client. by destruct (destroy g (client v)). }
    rewrite (raw_voice_server_update_known rd _ g endpoint token ci Hh Hc).
    unfold sent_by. rewrite voice_update_run by done.
    cbn. by rewrite lookup_insert_eq, drop_own_length.
Qed.

Lemma voice_disconnect_keeps_remembered_connection_witness :
  let v := mkVoiceClient (demo_client [(1, demo_node 1 [demo_track 0 "QAAA"] false)])
             900 {[1 := voice.mkConnectionInfo 1 "sess" 55]} in
  let v1 := (raw_voice_state_update 1 900 "sess" None v).2 in
  _nodes (client v1) !! 1 = None
  ∧ _voice_handlers v1 = _voice_handlers v.
Proof.
  intros v v1.
  destruct (voice_disconnect_keeps_remembered_connection false v 1 "sess"
              "wss://eu.example:443" "tok" None)
    as (Hknown & _ & Hkept & _); [done|].
  split; [|exact Hkept].
  by destruct (Hknown (demo_node 1 [demo_track 0 "QAAA"] false))
    as (_ & Hgone & _); [by vm_compute|done|].
Defined.

(** ** Track lookup *)

Lemma _prossing_tracks_run (raw : list Track) :
  ∀ s, _prossing_tracks raw s =
         (imap (λ i r, new_Track (next_oid s + i) (objects.track r) r) raw,
          mkClient (_nodes s) (requesters s) (next_oid s + List.length raw)%nat
            (info s) (wire s) (emitted s)).
Proof.
  induction raw as [|r raw IH]; intros s; cbn [_prossing_tracks].
  - cbn. rewrite Nat.add_0_r. by destruct s.
  - rewrite IH. cbn. rewrite Nat.add_0_r. f_equal.
    + f_equal. apply imap_ext. intros i x _. cbn. f_equal. lia.
    + f_equal. lia.
Qed.

(** X24. [_prossing_tracks] builds one new track object per item, in the
    order given: the [i]-th object carries the [i]-th item's handle and
    attributes, the objects' identities are new (not below the allocation
    mark) and pairwise distinct, and nothing of the client changes but the
    allocation mark. *)
Theorem _prossing_tracks_new_objects_in_order (raw : list Track) (s : Client) :
  let ts := (_prossing_tracks raw s).1 in
  let s' := (_prossing_tracks raw s).2 in
  List.length ts = List.length raw
  ∧ objects.track <$> ts = objects.track <$> raw
  ∧ (∀ i r, raw !! i = Some r →
       ts !! i = Some (new_Track (next_oid s + i) (objects.track r) r))
  ∧ NoDup (oid <$> ts)
  ∧ Forall (λ t, (next_oid s ≤ oid t < next_oid s')%nat) ts
  ∧ _nodes s' = _nodes s ∧ requesters s' = requesters s
  ∧ wire s' = wire s ∧ emitted s' = emitted s.
Proof.
  intros ts s'. subst ts s'. rewrite _prossing_tracks_run. cbn [fst snd].
  assert (Hoids : oid <$> imap (λ i r, new_Track (next_oid s + i) (objects.track r) r) raw
                  = seq (next_oid s) (List.length raw)).
  { generalize (next_oid s). induction raw as [|r raw IH]; intros k; [done|].
    cbn. rewrite Nat.add_0_r. f_equal. rewrite <- IH.
    f_equal. apply imap_ext. intros i x _. cbn. f_equal. lia. }
  split_and!; try done.
  - by rewrite length_imap.
  - apply list_eq. intros i. rewrite !list_lookup_fmap, list_lookup_imap.
    by destruct (raw !! i).
  - intros i r Hr. by rewrite list_lookup_imap, Hr.
  - rewrite Hoids. apply NoDup_seq.
  - apply Forall_forall. intros t Ht.
    assert (Hin : oid t ∈ seq (next_oid s) (List.length raw)).
    { rewrite <- Hoids. by apply list_elem_of_fmap_2. }
    apply elem_of_seq in Hin. cbn. lia.
Qed.

Lemma _prossing_tracks_new_objects_in_order_witness :
  let raw := [demo_track 0 "QAAA"; demo_track 0 "QBBB"] in
  (_prossing_tracks raw new_client).1 !! 1%nat = Some (demo_track 1 "QBBB").
Proof.
  intros raw.
  destruct (_prossing_tracks_new_objects_in_order raw new_client)
    as (_ & _ & Hith & _).
  by apply (Hith 1%nat (demo_track 0 "QBBB")).
Defined.

Lemma lookup_keeps_client (api : string → LoadTracks) (query : string) (s : Client) :
  (_nodes (search_youtube api query s).2 = _nodes s
   ∧ requesters (search_youtube api query s).2 = requesters s
   ∧ wire (search_youtube api query s).2 = wire s)
  ∧ (_nodes (get_tracks api query s).2 = _nodes s
     ∧ requesters (get_tracks api query s).2 = requesters s
     ∧ wire (get_tracks api query s).2 = wire s).
Proof.
  unfold search_youtube, get_tracks. rewrite !_prossing_tracks_run.
  split; repeat (destruct (String.eqb _ _)); by cbn.
Qed.

(** X25. [auto_search_tracks] sends a query containing "http" to
    [get_tracks] and any other query to [search_youtube] under the
    "ytsearch:" prefix.  The two differ on a failed load: for a query
    without "http" the call never raises [TrackLoadFailed] and a failed load
    gives [None], while for a query with "http" a failed load raises
    [TrackLoadFailed] with the message and severity reported.  No match
    gives the empty list either way, and no lookup touches the registry,
    the requesters or the socket. *)
Theorem auto_search_tracks_picks_lookup
    (api : string → LoadTracks) (query : string) (s : Client) :
  let found := auto_search_tracks api query s in
  (_nodes found.2 = _nodes s ∧ requesters found.2 = requesters s
   ∧ wire found.2 = wire s)
  ∧ (occurs "http" query = false →
       found = search_youtube api query s
       ∧ (∀ m sv, found.1 ≠ TrackLoadFailed m sv)
       ∧ (loadType (api (String.append "ytsearch:" query)) = "LOAD_FAILED" →
          found = (PyNone, s))
       ∧ (loadType (api (String.append "ytsearch:" query)) = "NO_MATCHES" →
          found = (TrackList [], s)))
  ∧ (occurs "http" query = true →
       found = get_tracks api query s
       ∧ (loadType (api query) = "LOAD_FAILED" →
          found = (TrackLoadFailed (exception_message (api query))
                     (exception_severity (api query)), s))
       ∧ (loadType (api query) = "NO_MATCHES" → found = (TrackList [], s))).
Proof.
  intros found. subst found. unfold auto_search_tracks.
  destruct (lookup_keeps_client api query s) as [Hyt Hget].
  destruct (occurs "http" query) eqn:Hhttp.
  - split; [done|]. split; [done|]. intros _. split; [done|].
    unfold get_tracks. split; by intros ->.
  - split; [done|]. split; [|done]. intros _. split; [done|].
    unfold search_youtube. split_and!.
    + intros m sv. rewrite _prossing_tracks_run.
      repeat (destruct (String.eqb _ _)); by cbn.
    + by intros ->.
    + by intros ->.
Qed.

Lemma auto_search_tracks_picks_lookup_witness :
  let api := λ _, mkLoadTracks "LOAD_FAILED" [] "" 0 "blocked" "COMMON" in
  auto_search_tracks api "never gonna" new_client = (PyNone, new_client)
  ∧ auto_search_tracks api "https://example.org/a" new_client
    = (TrackLoadFailed "blocked" "COMMON", new_client).
Proof.
  intros api.
  destruct (auto_search_tracks_picks_lookup api "never gonna" new_client)
    as (_ & Hplain & _).
  destruct (auto_search_tracks_picks_lookup api "https://example.org/a" new_client)
    as (_ & _ & Hurl).
  split.
  - destruct Hplain as (_ & _ & Hfail & _); [by vm_compute|]. by apply Hfail.
  - destruct Hurl as (_ & Hfail & _); [by vm_compute|]. by apply Hfail.
Defined.

(** ** Guild ids on the wire *)

Lemma str_inj (g g' : Z) : str g = str g' → g = g'.
Proof.
  assert (Hnil : ∀ z, Z.to_int z ≠ Decimal.Pos Decimal.Nil
                      ∧ Z.to_int z ≠ Decimal.Neg Decimal.Nil).
  { intros [|p|p]; cbn; split; try done;
      intros [= H]; by apply (DecimalPos.Unsigned.to_uint_nonnil p). }
  intros H.
  apply (f_equal NilZero.int_of_string) in H.
  unfold str in H.
  rewrite !NilZero.isi in H by apply Hnil.
  injection H as H. apply (f_equal Z.of_int) in H.
  by rewrite !DecimalZ.of_to in H.
Qed.

(** X26. The text a frame carries as ["guildId"] determines the guild:
    frames built for different guild ids differ, so a play, stop, volume or
    destroy frame can be read as addressed to one guild only. *)
Theorem frames_name_one_guild (g g' : Z) :
  (∀ t t', play_frame g t = play_frame g' t' →
           g = g' ∧ objects.track t = objects.track t')
  ∧ (stop_frame g = stop_frame g' → g = g')
  ∧ (∀ v v', volume_frame g v = volume_frame g' v' → g = g' ∧ v = v')
  ∧ (destroy_frame g = destroy_frame g' → g = g').
Proof.
  split_and!.
  - intros t t' [= Hg Ht]. split; [by apply str_inj|done].
  - intros [= Hg]. by apply str_inj.
  - intros v v' [= Hg Hv]. split; [by apply str_inj|done].
  - intros [= Hg]. by apply str_inj.
Qed.

Lemma frames_name_one_guild_witness :
  play_frame 1 (demo_track 0 "QAAA") ≠ play_frame 2 (demo_track 0 "QAAA").
Proof.
  intros Heq.
  destruct (frames_name_one_guild 1 2) as [Hplay _].
  by destruct (Hplay _ _ Heq).
Defined.

(** ** Binding again *)

(** X27. A binding [voice_update] on a session that already exists
    replaces it by a fresh one: the tracks queued are dropped, the volume
    is back at 100, and a TrackEnd frame arriving afterwards for the track
    that was playing sends nothing, so playback does not go on. *)
Theorem rebinding_drops_the_queue
    (api : string → Track) (rd : bool) (s : Client) (g c : Z) (n : Node)
    (session_id token endpoint h reason : string) :
  _nodes s !! g = Some n →
  c ≠ 0 →
  h ≠ "" →
  let s1 := (voice_update rd g session_id token endpoint (Some c) s).2 in
  let ev := callback api (EventOp (Some h) g (TrackEnd reason)) in
  _nodes s1 !! g = Some (mkNode g [] 100 rd true)
  ∧ queue g s1 = (Returned [], s1)
  ∧ sent_by ev s1 = []
  ∧ _nodes (ev s1).2 = _nodes s1.
Proof.
  intros Hn Hc Hh s1 ev. subst s1 ev. rewrite voice_update_run by done.
  cbn [snd]. set (s1 := mkClient _ _ _ _ _ _).
  assert (Hn1 : _nodes s1 !! g = Some (mkNode g [] 100 rd true))
    by apply lookup_insert_eq.
  unfold sent_by, queue. run. rewrite Hn1.
  rewrite callback_track_end_idle_run by eauto.
  cbn [snd wire _nodes]. by rewrite drop_all_own.
Qed.

Lemma rebinding_drops_the_queue_witness :
  let a := demo_track 0 "QAAA" in
  let b := demo_track 1 "QBBB" in
  let s := demo_client [(1, demo_node 1 [a; b] false)] in
  queue 1 (voice_update false 1 "sess" "tok" "wss://eu.example:443" (Some 55) s).2
  = (Returned [],
     (voice_update false 1 "sess" "tok" "wss://eu.example:443" (Some 55) s).2).
Proof.
  intros a b s.
  by destruct (rebinding_drops_the_queue (demo_track 0) false s 1 55
                 (demo_node 1 [a; b] false) "sess" "tok" "wss://eu.example:443"
                 "QAAA" "FINISHED")
    as (_ & H & _); [by vm_compute|done|done|].
Defined.
